(** * NREGS report pipelines: the aggregation and ranking core

    A shallow embedding of the data transformation performed by
    [area_officer_inspection.py], [work_management.py] and [zero_muster.py]:
    numeric normalisation, ranking (with the inspection tie-break pass),
    averages and extrema, at state and at district level.

    Modelling choices.
    - A Record is a Python dict from field names to JSON scalars; it is a
      heap object, referred to by a location.  The aggregators update the
      records in place, so they are modelled as functions on a heap.
    - A JSON number is a Python [int] (unbounded, [Z]) or a finite Python
      [float] (IEEE binary64).  A finite binary64 is an integer multiple of
      2^-1074, so a float is kept as a sign and a magnitude counted in that
      unit; comparisons and sums are then exact integer operations, and only
      rounding back to 53 significant bits needs care.  Infinities and NaN
      are not JSON numbers and are outside the record model; an overflowing
      float sum is represented separately where the code can produce it.
    - A Python exception is the [Raise] outcome of the [result] monad.
    - Logging is omitted: every log line of the aggregators reads a field
      that the surrounding code reads as well, with the same exception. *)

From Stdlib Require Import ZArith Lia List String Ascii Bool Permutation Sorted.
From stdpp Require Import base gmap strings list fin_maps.

Local Open Scope Z_scope.

(* ===================================================================== *)
(** * Python exceptions and the result monad *)
(* ===================================================================== *)

Inductive exn : Set :=
| KeyError | TypeError | IndexError | StatisticsError | OverflowError.

Inductive result (A : Type) : Type :=
| Ok (a : A)
| Raise (e : exn).
Arguments Ok {A} a.
Arguments Raise {A} e.

#[global] Instance result_ret : MRet result := @Ok.
#[global] Instance result_bind : MBind result :=
  λ A B f m, match m with Ok a => f a | Raise e => Raise e end.
#[global] Instance result_fmap : FMap result :=
  λ A B f m, match m with Ok a => Ok (f a) | Raise e => Raise e end.

(** [l[i]] on a Python list *)
Definition getitem {A} (l : list A) (i : nat) : result A :=
  match l !! i with Some a => Ok a | None => Raise IndexError end.

(* ===================================================================== *)
(** * Binary64 arithmetic on scaled integers *)
(* ===================================================================== *)

(** 2^1074: the number of units of 2^-1074 in 1.0 *)
Definition unit : Z := 2 ^ 1074.

(** First magnitude that is too large for a finite float: 2^1024, in units. *)
Definition overflow_bound : Z := 2 ^ 2098.

(** [p / q] rounded to the nearest integer, ties to even ([0 < q]). *)
Definition rne_div (p q : Z) : Z :=
  let d := p / q in
  let r := p mod q in
  if 2 * r <? q then d
  else if q <? 2 * r then d + 1
  else if Z.even d then d else d + 1.

(** Number of low bits a magnitude [t] has beyond 53 significant bits. *)
Definition shift53 (t : Z) : Z := Z.max 0 (Z.log2 t - 52).

(** [p / q] rounded to the nearest magnitude with at most 53 significant
    bits, ties to even: the binary64 rounding of a non-negative rational
    number of units. *)
Definition round53 (p q : Z) : Z :=
  let s := shift53 (p / q) in
  rne_div p (q * 2 ^ s) * 2 ^ s.

(** A finite Python float: sign bit and magnitude in units of 2^-1074. *)
Record float : Set := Float { fneg : bool; fmag : N }.

(** The exact value of a float, in units. *)
Definition float_scaled (f : float) : Z :=
  if fneg f then - Z.of_N (fmag f) else Z.of_N (fmag f).

(** The magnitude is one a binary64 can hold. *)
Definition representable (n : Z) : bool :=
  (0 <=? n) && (n <? overflow_bound) && (n mod 2 ^ shift53 n =? 0).

(** The nearest float to the rational [p / q] units ([0 < q]); a quotient of
    zero is +0.0, as for Python's [int / int]. *)
Definition float_of_ratio (p q : Z) : result float :=
  let m := round53 (Z.abs p) q in
  if m <? overflow_bound then Ok (Float (p <? 0) (Z.to_N m))
  else Raise OverflowError.

(** A decimal literal [p / q] as the JSON parser reads it. *)
Definition float_lit (p q : Z) : float :=
  Float (p <? 0) (Z.to_N (round53 (Z.abs p * unit) q)).

(** [round(x, 2)] on a float: the exact value is rounded half-even to a
    multiple of 1/100, and that decimal is converted back to the nearest
    float; the sign is kept, also on a zero result. *)
Definition round2 (x : float) : float :=
  let k := rne_div (100 * Z.of_N (fmag x)) unit in
  Float (fneg x) (Z.to_N (round53 (k * unit) 100)).

(** [float(z)] for a Python int *)
Definition float_of_int (z : Z) : result float := float_of_ratio (z * unit) 1.

(** A float sum can overflow to an infinity. *)
Inductive xfloat : Set :=
| XFin (f : float)
| XInf (neg : bool).

(** [x + y] on floats: the exact sum, rounded; an exact zero sum is -0.0
    only when both operands are negative zeros. *)
Definition float_add (x y : float) : xfloat :=
  let s := float_scaled x + float_scaled y in
  if s =? 0 then XFin (Float (fneg x && fneg y) 0)
  else
    let m := round53 (Z.abs s) 1 in
    if m <? overflow_bound then XFin (Float (s <? 0) (Z.to_N m))
    else XInf (s <? 0).

(* ===================================================================== *)
(** * Values, records and the heap *)
(* ===================================================================== *)

(** A field value: a JSON number or string. *)
Inductive value : Set :=
| VInt (z : Z)
| VFloat (f : float)
| VStr (s : string).

(** A Record: a dict from field name to value. *)
Abbreviation record := (gmap string value).

(** Records are objects; a location is a reference to one. *)
Abbreviation loc := nat.
Abbreviation heap := (gmap loc record).

(** The exact value of a number, in units; a string has none. *)
Definition value_scaled (v : value) : option Z :=
  match v with
  | VInt z => Some (z * unit)
  | VFloat f => Some (float_scaled f)
  | VStr _ => None
  end.

(** [a < b]: exact on numbers, lexicographic on strings, a [TypeError]
    between a number and a string. *)
Definition py_lt (a b : value) : result bool :=
  match a, b with
  | VStr s, VStr t => Ok (String.ltb s t)
  | VStr _, _ | _, VStr _ => Raise TypeError
  | _, _ =>
      match value_scaled a, value_scaled b with
      | Some x, Some y => Ok (x <? y)
      | _, _ => Raise TypeError
      end
  end.

(** [a == b]: numbers compare by exact value whatever their types, strings
    by content, a number never equals a string.  This is also the key
    equality of a dict. *)
Definition py_eqb (a b : value) : bool :=
  match a, b with
  | VStr s, VStr t => String.eqb s t
  | VStr _, _ | _, VStr _ => false
  | _, _ =>
      match value_scaled a, value_scaled b with
      | Some x, Some y => x =? y
      | _, _ => false
      end
  end.

(** [round(v, 2)]: an int is returned as it is, a float is rounded, a
    string has no [__round__]. *)
Definition py_round2 (v : value) : result value :=
  match v with
  | VInt z => Ok (VInt z)
  | VFloat f => Ok (VFloat (round2 f))
  | VStr _ => Raise TypeError
  end.

(** The result of [a + b]. *)
Inductive sumv : Set :=
| SInt (z : Z)
| SFloat (x : xfloat)
| SStr (s : string).

Definition py_add (a b : value) : result sumv :=
  match a, b with
  | VInt x, VInt y => Ok (SInt (x + y))
  | VFloat x, VFloat y => Ok (SFloat (float_add x y))
  | VInt x, VFloat y => fx ← float_of_int x; Ok (SFloat (float_add fx y))
  | VFloat x, VInt y => fy ← float_of_int y; Ok (SFloat (float_add x fy))
  | VStr s, VStr t => Ok (SStr (s ++ t)%string)
  | _, _ => Raise TypeError
  end.

(** Position of a sum on the extended line: infinities lie beyond every
    finite value. *)
Inductive xnum : Set :=
| NegInf
| Fin (z : Z)
| PosInf.

Definition sumv_scaled (s : sumv) : option xnum :=
  match s with
  | SInt z => Some (Fin (z * unit))
  | SFloat (XFin f) => Some (Fin (float_scaled f))
  | SFloat (XInf true) => Some NegInf
  | SFloat (XInf false) => Some PosInf
  | SStr _ => None
  end.

Definition xnum_ltb (a b : xnum) : bool :=
  match a, b with
  | NegInf, NegInf => false
  | NegInf, _ => true
  | Fin x, Fin y => x <? y
  | Fin _, PosInf => true
  | _, _ => false
  end.

(** [a < b] on two sums *)
Definition sumv_lt (a b : sumv) : result bool :=
  match a, b with
  | SStr s, SStr t => Ok (String.ltb s t)
  | _, _ =>
      match sumv_scaled a, sumv_scaled b with
      | Some x, Some y => Ok (xnum_ltb x y)
      | _, _ => Raise TypeError
      end
  end.

(** [r[k]] and [r.get(k, d)] on a record *)
Definition rec_getitem (r : record) (k : string) : result value :=
  match r !! k with Some v => Ok v | None => Raise KeyError end.

Definition rec_get (r : record) (k : string) (d : value) : value :=
  default d (r !! k).

(** The object a reference denotes.  Every reference of a payload is
    allocated; the empty record only makes the lookup total. *)
Definition deref (h : heap) (l : loc) : record := h !!! l.

#[global] Instance float_eq_dec : EqDecision float.
Proof. solve_decision. Defined.
#[global] Instance value_eq_dec : EqDecision value.
Proof. solve_decision. Defined.

(* ===================================================================== *)
(** * Library functions: [sorted], [statistics.mean], dict assignment *)
(* ===================================================================== *)

(** Insertion after every element that is not greater: the sort is stable. *)
Fixpoint insert_by {A} (key : A → value) (x : A) (l : list A) : result (list A) :=
  match l with
  | [] => Ok [x]
  | y :: l' =>
      b ← py_lt (key x) (key y);
      if b : bool then Ok (x :: y :: l') else cons y <$> insert_by key x l'
  end.

Definition sort_by {A} (key : A → value) (l : list A) : result (list A) :=
  foldl (λ acc x, s ← acc; insert_by key x s) (Ok []) l.

(** [sorted(l, key=key, reverse=reverse)]: a stable sort that compares keys
    with [<] only; with [reverse] the list is reversed, sorted and reversed
    again, which keeps equal keys in their original order. *)
Definition sorted {A} (l : list A) (key : A → value) (reverse : bool) : result (list A) :=
  if reverse then @rev A <$> sort_by key (rev l) else sort_by key l.

Definition is_int (v : value) : bool :=
  match v with VInt _ => true | _ => false end.

(** The exact sum of the data, in units. *)
Fixpoint exact_sum (vs : list value) : result Z :=
  match vs with
  | [] => Ok 0
  | v :: vs' =>
      match value_scaled v with
      | Some x => s ← exact_sum vs'; Ok (x + s)
      | None => Raise TypeError
      end
  end.

(** [statistics.mean]: the exact rational mean, returned as an int when the
    data are ints and the mean is whole, else as the nearest float. *)
Definition mean (vs : list value) : result value :=
  total ← exact_sum vs;
  let n := Z.of_nat (length vs) in
  if n <? 1 then Raise StatisticsError
  else if forallb is_int vs && (total mod (n * unit) =? 0)
       then Ok (VInt (total / (n * unit)))
       else VFloat <$> float_of_ratio total n.

(** A dict from entity name to rank, in insertion order. *)
Abbreviation rank_dict := (list (value * Z)).

(** [d[k] = v]: an equal key keeps its place and takes the new rank. *)
Fixpoint dict_set (d : rank_dict) (k : value) (v : Z) : rank_dict :=
  match d with
  | [] => [(k, v)]
  | (k', v') :: d' =>
      if py_eqb k' k then (k', v) :: d' else (k', v') :: dict_set d' k v
  end.

(** [d.get(k, None)] *)
Fixpoint dict_get (d : rank_dict) (k : value) : option Z :=
  match d with
  | [] => None
  | (k', v') :: d' => if py_eqb k' k then Some v' else dict_get d' k
  end.

(* ===================================================================== *)
(** * Steps shared by the aggregators *)
(* ===================================================================== *)

(** A fetched payload: the ['results'] entry, a list of record references
    when present, and the scalar entries beside it. *)
Record payload : Type := Payload {
  results : option (list loc);
  scalars : gmap string value
}.

(** [not data] for a payload dict: it has no entry at all. *)
Definition payload_falsy (d : payload) : bool :=
  bool_decide (results d = None) && bool_decide (scalars d = ∅).

(** [if isinstance(value, float): district[key] = round(value, 2)] *)
Definition normalize_value (v : value) : value :=
  match v with
  | VFloat f => VFloat (round2 f)
  | _ => v
  end.

(** The inner loop, over the items of one record. *)
Definition normalize_record (r : record) : record := normalize_value <$> r.

(** The outer loop: every record of the collection is updated in place. *)
Definition normalize (rs : list loc) (h : heap) : heap :=
  foldl (λ h l, alter normalize_record l h) h rs.

(** [round(statistics.mean([d.get(field, 0) for d in data['results']]), 2)] *)
Definition average (h : heap) (rs : list loc) (field : string) : result value :=
  m ← mean (map (λ d, rec_get (deref h d) field (VInt 0)) rs);
  py_round2 m.

(** The sort keys: [lambda x: x.get('total_visit_marks', 0)] and its
    counterparts in the other two pipelines. *)
Definition inspection_key (h : heap) (x : loc) : value :=
  rec_get (deref h x) "total_visit_marks" (VInt 0).
Definition work_key (h : heap) (x : loc) : value :=
  rec_get (deref h x) "work_management_total" (VInt 0).
Definition zero_muster_key (h : heap) (x : loc) : value :=
  rec_get (deref h x) "zero_attendance_percentage" (VInt 100).

(** [x['dpc_ws_visited'] + x['adpc_ws_visited']] *)
Definition total_visits (h : heap) (x : loc) : result sumv :=
  dpc ← rec_getitem (deref h x) "dpc_ws_visited";
  adpc ← rec_getitem (deref h x) "adpc_ws_visited";
  py_add dpc adpc.

(** One iteration of the tie-break loop of the inspection pipeline. *)
Definition tie_step (h : heap) (i : nat) (s : list loc) : result (list loc) :=
  a ← getitem s i;
  marks_i ← rec_getitem (deref h a) "total_visit_marks";
  b ← getitem s (i + 1);
  marks_i_plus_1 ← rec_getitem (deref h b) "total_visit_marks";
  if py_eqb marks_i marks_i_plus_1 then
    total_visits_i ← total_visits h a;
    total_visits_i_plus_1 ← total_visits h b;
    lt ← sumv_lt total_visits_i total_visits_i_plus_1;
    if lt : bool then Ok (<[i := b]> (<[(i + 1)%nat := a]> s)) else Ok s
  else Ok s.

(** Iterations [i], [i + 1], ... of the loop, [n] of them. *)
Fixpoint tie_loop (h : heap) (i n : nat) (s : list loc) : result (list loc) :=
  match n with
  | O => Ok s
  | S n' => s' ← tie_step h i s; tie_loop h (S i) n' s'
  end.

(** [for i in range(len(sorted_districts) - 1): ...] *)
Definition tie_break_pass (h : heap) (s : list loc) : result (list loc) :=
  tie_loop h 0 (length s - 1) s.

(** [for i, district in enumerate(sorted_districts):
       district_ranks[district['group_name']] = i + 1] *)
Fixpoint assign_ranks_from (h : heap) (i : nat) (l : list loc) (ranks : rank_dict)
  : result rank_dict :=
  match l with
  | [] => Ok ranks
  | district :: l' =>
      name ← rec_getitem (deref h district) "group_name";
      assign_ranks_from h (S i) l' (dict_set ranks name (Z.of_nat i + 1))
  end.

Definition assign_ranks (h : heap) (l : list loc) : result rank_dict :=
  assign_ranks_from h 0 l [].

(** [l[-1]] *)
Definition getlast {A} (l : list A) : result A := getitem l (length l - 1).

(* ===================================================================== *)
(** * The aggregators *)
(* ===================================================================== *)

(** The dict a state aggregator returns.  [top_district] and
    [bottom_district] are references to records of the input; [date_range]
    is present in the inspection pipeline only. *)
Record state_output : Type := StateOutput {
  top_district : loc;
  bottom_district : loc;
  state_averages : gmap string value;
  district_ranks : rank_dict;
  total_districts : nat;
  date_range : option (value * value)
}.

(** A value of the [district_summary] dict. *)
Inductive jval : Type :=
| JNull
| JValue (v : value)
| JCount (n : nat)
| JRange (start stop : value).

(** The dict a district aggregator returns. *)
Record district_output : Type := DistrictOutput {
  blocks : list loc;
  district_summary : gmap string jval
}.

(** [sorted_blocks[0] if sorted_blocks else None], and the same for [-1] *)
Definition first_or_none (l : list loc) : option loc := l !! 0%nat.
Definition last_or_none (l : list loc) : option loc := l !! (length l - 1)%nat.

(** [block['group_name'] if block else None]: a dict is truthy when it is
    not empty. *)
Definition name_if (h : heap) (block : option loc) : result jval :=
  match block with
  | Some b =>
      if bool_decide (deref h b = ∅) then Ok JNull
      else JValue <$> rec_getitem (deref h b) "group_name"
  | None => Ok JNull
  end.

(** [block.get(field, 0) if block else 0] *)
Definition metric_if (h : heap) (block : option loc) (field : string) : jval :=
  match block with
  | Some b =>
      if bool_decide (deref h b = ∅) then JValue (VInt 0)
      else JValue (rec_get (deref h b) field (VInt 0))
  | None => JValue (VInt 0)
  end.

(** [area_officer_inspection.process_state_inspection_data] *)
Definition process_state_inspection_data (data : option payload) (h : heap)
  : result (option state_output) * heap :=
  match data with
  | None => (Ok None, h)
  | Some d =>
    if payload_falsy d then (Ok None, h) else
    match results d with
    | None => (Ok None, h)
    | Some rs =>
      let h := normalize rs h in
      (sorted_districts ←
         sorted rs (inspection_key h) true;
       sorted_districts ← tie_break_pass h sorted_districts;
       district_ranks ← assign_ranks h sorted_districts;
       top_district ← getitem sorted_districts 0;
       bottom_district ← getlast sorted_districts;
       avg_dpc_ws_visited ← average h rs "dpc_ws_visited";
       avg_adpc_ws_visited ← average h rs "adpc_ws_visited";
       avg_dpc_marks ← average h rs "dpc_marks";
       avg_adpc_marks ← average h rs "adpc_marks";
       avg_total_marks ← average h rs "total_visit_marks";
       let range_start := rec_get (scalars d) "range_start" (VStr "") in
       let range_end := rec_get (scalars d) "range_end" (VStr "") in
       Ok (Some {|
         top_district := top_district;
         bottom_district := bottom_district;
         state_averages :=
           {[ "dpc_ws_visited" := avg_dpc_ws_visited;
              "adpc_ws_visited" := avg_adpc_ws_visited;
              "dpc_marks" := avg_dpc_marks;
              "adpc_marks" := avg_adpc_marks;
              "total_marks" := avg_total_marks ]};
         district_ranks := district_ranks;
         total_districts := length sorted_districts;
         date_range := Some (range_start, range_end) |}),
       h)
    end
  end.

(** [area_officer_inspection.process_district_inspection_data] *)
Definition process_district_inspection_data (data : option payload) (h : heap)
  : result (option district_output) * heap :=
  match data with
  | None => (Ok None, h)
  | Some d =>
    if payload_falsy d then (Ok None, h) else
    match results d with
    | None => (Ok None, h)
    | Some rs =>
      let h := normalize rs h in
      (sorted_blocks ←
         sorted rs (inspection_key h) true;
       sorted_blocks ← tie_break_pass h sorted_blocks;
       avg_dpc_ws_visited ← average h rs "dpc_ws_visited";
       avg_adpc_ws_visited ← average h rs "adpc_ws_visited";
       avg_dpc_marks ← average h rs "dpc_marks";
       avg_adpc_marks ← average h rs "adpc_marks";
       avg_total_marks ← average h rs "total_visit_marks";
       let highest_block := first_or_none sorted_blocks in
       let lowest_block := last_or_none sorted_blocks in
       let range_start := rec_get (scalars d) "range_start" (VStr "") in
       let range_end := rec_get (scalars d) "range_end" (VStr "") in
       highest_name ← name_if h highest_block;
       lowest_name ← name_if h lowest_block;
       Ok (Some {|
         blocks := sorted_blocks;
         district_summary :=
           {[ "total_blocks" := JCount (length rs);
              "average_dpc_ws_visited" := JValue avg_dpc_ws_visited;
              "average_adpc_ws_visited" := JValue avg_adpc_ws_visited;
              "average_dpc_marks" := JValue avg_dpc_marks;
              "average_adpc_marks" := JValue avg_adpc_marks;
              "average_total_marks" := JValue avg_total_marks;
              "highest_performing_block" := highest_name;
              "highest_total_marks" := metric_if h highest_block "total_visit_marks";
              "lowest_performing_block" := lowest_name;
              "lowest_total_marks" := metric_if h lowest_block "total_visit_marks";
              "date_range" := JRange range_start range_end ]} |}),
       h)
    end
  end.

(** [work_management.process_state_work_data] *)
Definition process_state_work_data (data : option payload) (h : heap)
  : result (option state_output) * heap :=
  match data with
  | None => (Ok None, h)
  | Some d =>
    if payload_falsy d then (Ok None, h) else
    match results d with
    | None => (Ok None, h)
    | Some rs =>
      let h := normalize rs h in
      (state_avg_prev ← py_round2 (rec_get (scalars d) "state_avg_prev" (VInt 0));
       state_avg_curr ← py_round2 (rec_get (scalars d) "state_avg_curr" (VInt 0));
       sorted_districts ←
         sorted rs (work_key h) true;
       district_ranks ← assign_ranks h sorted_districts;
       top_district ← getitem sorted_districts 0;
       bottom_district ← getlast sorted_districts;
       avg_prev_completion ← average h rs "prev_completion";
       avg_curr_completion ← average h rs "curr_completion";
       avg_marks_prev ← average h rs "marks_prev";
       avg_marks_curr ← average h rs "marks_curr";
       avg_total_marks ← average h rs "work_management_total";
       Ok (Some {|
         top_district := top_district;
         bottom_district := bottom_district;
         state_averages :=
           {[ "prev_completion" := avg_prev_completion;
              "curr_completion" := avg_curr_completion;
              "marks_prev" := avg_marks_prev;
              "marks_curr" := avg_marks_curr;
              "total_marks" := avg_total_marks;
              "state_avg_prev" := state_avg_prev;
              "state_avg_curr" := state_avg_curr ]};
         district_ranks := district_ranks;
         total_districts := length sorted_districts;
         date_range := None |}),
       h)
    end
  end.

(** [work_management.process_district_work_data] *)
Definition process_district_work_data (data : option payload) (h : heap)
  : result (option district_output) * heap :=
  match data with
  | None => (Ok None, h)
  | Some d =>
    if payload_falsy d then (Ok None, h) else
    match results d with
    | None => (Ok None, h)
    | Some rs =>
      let h := normalize rs h in
      (state_avg_prev ← py_round2 (rec_get (scalars d) "state_avg_prev" (VInt 0));
       state_avg_curr ← py_round2 (rec_get (scalars d) "state_avg_curr" (VInt 0));
       sorted_blocks ←
         sorted rs (work_key h) true;
       avg_prev_completion ← average h rs "prev_completion";
       avg_curr_completion ← average h rs "curr_completion";
       avg_marks_prev ← average h rs "marks_prev";
       avg_marks_curr ← average h rs "marks_curr";
       avg_total_marks ← average h rs "work_management_total";
       highest_block ← getitem sorted_blocks 0;
       lowest_block ← getlast sorted_blocks;
       highest_name ← rec_getitem (deref h highest_block) "group_name";
       lowest_name ← rec_getitem (deref h lowest_block) "group_name";
       Ok (Some {|
         blocks := sorted_blocks;
         district_summary :=
           {[ "total_blocks" := JCount (length rs);
              "average_prev_completion" := JValue avg_prev_completion;
              "average_curr_completion" := JValue avg_curr_completion;
              "average_marks_prev" := JValue avg_marks_prev;
              "average_marks_curr" := JValue avg_marks_curr;
              "average_total_marks" := JValue avg_total_marks;
              "state_avg_prev" := JValue state_avg_prev;
              "state_avg_curr" := JValue state_avg_curr;
              "highest_performing_block" := JValue highest_name;
              "highest_total_marks" :=
                JValue (rec_get (deref h highest_block) "work_management_total" (VInt 0));
              "lowest_performing_block" := JValue lowest_name;
              "lowest_total_marks" :=
                JValue (rec_get (deref h lowest_block) "work_management_total" (VInt 0)) ]} |}),
       h)
    end
  end.

(** [zero_muster.process_state_zero_muster_data] *)
Definition process_state_zero_muster_data (data : option payload) (h : heap)
  : result (option state_output) * heap :=
  match data with
  | None => (Ok None, h)
  | Some d =>
    if payload_falsy d then (Ok None, h) else
    match results d with
    | None => (Ok None, h)
    | Some rs =>
      let h := normalize rs h in
      (sorted_districts ←
         sorted rs (zero_muster_key h) false;
       district_ranks ← assign_ranks h sorted_districts;
       top_district ← getitem sorted_districts 0;
       bottom_district ← getlast sorted_districts;
       avg_total_muster_issued ← average h rs "total_muster_issued";
       avg_total_zero_attendance ← average h rs "total_zero_attendance";
       avg_zero_attendance_percentage ← average h rs "zero_attendance_percentage";
       avg_zero_muster_marks ← average h rs "zero_muster_marks";
       Ok (Some {|
         top_district := top_district;
         bottom_district := bottom_district;
         state_averages :=
           {[ "total_muster_issued" := avg_total_muster_issued;
              "total_zero_attendance" := avg_total_zero_attendance;
              "zero_attendance_percentage" := avg_zero_attendance_percentage;
              "zero_muster_marks" := avg_zero_muster_marks ]};
         district_ranks := district_ranks;
         total_districts := length sorted_districts;
         date_range := None |}),
       h)
    end
  end.

(** [zero_muster.process_district_zero_muster_data] *)
Definition process_district_zero_muster_data (data : option payload) (h : heap)
  : result (option district_output) * heap :=
  match data with
  | None => (Ok None, h)
  | Some d =>
    if payload_falsy d then (Ok None, h) else
    match results d with
    | None => (Ok None, h)
    | Some rs =>
      let h := normalize rs h in
      (sorted_blocks ←
         sorted rs (zero_muster_key h) false;
       avg_total_muster_issued ← average h rs "total_muster_issued";
       avg_total_zero_attendance ← average h rs "total_zero_attendance";
       avg_zero_attendance_percentage ← average h rs "zero_attendance_percentage";
       avg_zero_muster_marks ← average h rs "zero_muster_marks";
       let best_block := first_or_none sorted_blocks in
       let worst_block := last_or_none sorted_blocks in
       best_name ← name_if h best_block;
       worst_name ← name_if h worst_block;
       Ok (Some {|
         blocks := sorted_blocks;
         district_summary :=
           {[ "total_blocks" := JCount (length rs);
              "average_total_muster_issued" := JValue avg_total_muster_issued;
              "average_total_zero_attendance" := JValue avg_total_zero_attendance;
              "average_zero_attendance_percentage" := JValue avg_zero_attendance_percentage;
              "average_zero_muster_marks" := JValue avg_zero_muster_marks;
              "best_performing_block" := best_name;
              "best_zero_attendance_percentage" :=
                metric_if h best_block "zero_attendance_percentage";
              "worst_performing_block" := worst_name;
              "worst_zero_attendance_percentage" :=
                metric_if h worst_block "zero_attendance_percentage" ]} |}),
       h)
    end
  end.

(* ===================================================================== *)
(** * The orchestrator of the inspection pipeline *)
(* ===================================================================== *)

(** The [result] dict assembled by [main] before the narrative is requested. *)
Record report_input : Type := ReportInput {
  report_top_district : loc;
  report_bottom_district : loc;
  report_state_averages : gmap string value;
  report_date_range : option (value * value);
  district_name : string;
  state_rank : option Z;
  report_total_districts : nat;
  district_info : option loc;
  details : district_output
}.

(** What [main] hands back: [None], the "district required" message, or the
    assembled data. *)
Inductive main_outcome : Type :=
| MainNone
| MainMessage (msg : string)
| MainData (r : report_input).

(** [for d in state_data['results']:
       if d['group_name'] == district: target_district_data = d; break] *)
Fixpoint find_district (h : heap) (rs : list loc) (district : string)
  : result (option loc) :=
  match rs with
  | [] => Ok None
  | d :: rs' =>
      name ← rec_getitem (deref h d) "group_name";
      if py_eqb name (VStr district) then Ok (Some d)
      else find_district h rs' district
  end.

(** [area_officer_inspection.main], from the two fetched payloads up to the
    assembled [result]; the fetches and the narrative request are external.
    [state_data] and [district_data] are what the two calls of
    [get_inspection_data] returned. *)
Definition main (state_data district_data : option payload) (district : string)
    (h : heap) : result main_outcome * heap :=
  match state_data with
  | None => (Ok MainNone, h)
  | Some sd =>
    if payload_falsy sd then (Ok MainNone, h) else
    match process_state_inspection_data state_data h with
    | (Raise e, h) => (Raise e, h)
    | (Ok None, h) => (Ok MainNone, h)
    | (Ok (Some processed_state_data), h) =>
      if bool_decide (district = ""%string)
      then (Ok (MainMessage "District name is required for analysis"), h)
      else
        match district_data with
        | None => (Ok MainNone, h)
        | Some dd =>
          if payload_falsy dd then (Ok MainNone, h) else
          match process_district_inspection_data district_data h with
          | (Raise e, h) => (Raise e, h)
          | (Ok None, h) => (Ok MainNone, h)
          | (Ok (Some processed_district_data), h) =>
            let district_rank :=
              dict_get (district_ranks processed_state_data) (VStr district) in
            (target_district_data ←
               find_district h (default [] (results sd)) district;
             Ok (MainData {|
               report_top_district := top_district processed_state_data;
               report_bottom_district := bottom_district processed_state_data;
               report_state_averages := state_averages processed_state_data;
               report_date_range := date_range processed_state_data;
               district_name := district;
               state_rank := district_rank;
               report_total_districts := total_districts processed_state_data;
               district_info := target_district_data;
               details := processed_district_data |}),
             h)
          end
        end
    end
  end.

(** [work_management.main], in the same way. *)
Definition work_main (state_data district_data : option payload) (district : string)
    (h : heap) : result main_outcome * heap :=
  match state_data with
  | None => (Ok MainNone, h)
  | Some sd =>
    if payload_falsy sd then (Ok MainNone, h) else
    match process_state_work_data state_data h with
    | (Raise e, h) => (Raise e, h)
    | (Ok None, h) => (Ok MainNone, h)
    | (Ok (Some processed_state_data), h) =>
      if bool_decide (district = ""%string)
      then (Ok (MainMessage "District name is required for analysis"), h)
      else
        match district_data with
        | None => (Ok MainNone, h)
        | Some dd =>
          if payload_falsy dd then (Ok MainNone, h) else
          match process_district_work_data district_data h with
          | (Raise e, h) => (Raise e, h)
          | (Ok None, h) => (Ok MainNone, h)
          | (Ok (Some processed_district_data), h) =>
            let district_rank :=
              dict_get (district_ranks processed_state_data) (VStr district) in
            (target_district_data ←
               find_district h (default [] (results sd)) district;
             Ok (MainData {|
               report_top_district := top_district processed_state_data;
               report_bottom_district := bottom_district processed_state_data;
               report_state_averages := state_averages processed_state_data;
               report_date_range := date_range processed_state_data;
               district_name := district;
               state_rank := district_rank;
               report_total_districts := total_districts processed_state_data;
               district_info := target_district_data;
               details := processed_district_data |}),
             h)
          end
        end
    end
  end.

(** [zero_muster.main], in the same way. *)
Definition zero_muster_main (state_data district_data : option payload) (district : string)
    (h : heap) : result main_outcome * heap :=
  match state_data with
  | None => (Ok MainNone, h)
  | Some sd =>
    if payload_falsy sd then (Ok MainNone, h) else
    match process_state_zero_muster_data state_data h with
    | (Raise e, h) => (Raise e, h)
    | (Ok None, h) => (Ok MainNone, h)
    | (Ok (Some processed_state_data), h) =>
      if bool_decide (district = ""%string)
      then (Ok (MainMessage "District name is required for analysis"), h)
      else
        match district_data with
        | None => (Ok MainNone, h)
        | Some dd =>
          if payload_falsy dd then (Ok MainNone, h) else
          match process_district_zero_muster_data district_data h with
          | (Raise e, h) => (Raise e, h)
          | (Ok None, h) => (Ok MainNone, h)
          | (Ok (Some processed_district_data), h) =>
            let district_rank :=
              dict_get (district_ranks processed_state_data) (VStr district) in
            (target_district_data ←
               find_district h (default [] (results sd)) district;
             Ok (MainData {|
               report_top_district := top_district processed_state_data;
               report_bottom_district := bottom_district processed_state_data;
               report_state_averages := state_averages processed_state_data;
               report_date_range := date_range processed_state_data;
               district_name := district;
               state_rank := district_rank;
               report_total_districts := total_districts processed_state_data;
               district_info := target_district_data;
               details := processed_district_data |}),
             h)
          end
        end
    end
  end.

(** The shape the three orchestrators share, over the two aggregators of a
    pipeline. *)
Definition orchestrate
    (process_state : option payload → heap → result (option state_output) * heap)
    (process_district : option payload → heap → result (option district_output) * heap)
    (state_data district_data : option payload) (district : string)
    (h : heap) : result main_outcome * heap :=
  match state_data with
  | None => (Ok MainNone, h)
  | Some sd =>
    if payload_falsy sd then (Ok MainNone, h) else
    match process_state state_data h with
    | (Raise e, h) => (Raise e, h)
    | (Ok None, h) => (Ok MainNone, h)
    | (Ok (Some processed_state_data), h) =>
      if bool_decide (district = ""%string)
      then (Ok (MainMessage "District name is required for analysis"), h)
      else
        match district_data with
        | None => (Ok MainNone, h)
        | Some dd =>
          if payload_falsy dd then (Ok MainNone, h) else
          match process_district district_data h with
          | (Raise e, h) => (Raise e, h)
          | (Ok None, h) => (Ok MainNone, h)
          | (Ok (Some processed_district_data), h) =>
            let district_rank :=
              dict_get (district_ranks processed_state_data) (VStr district) in
            (target_district_data ←
               find_district h (default [] (results sd)) district;
             Ok (MainData {|
               report_top_district := top_district processed_state_data;
               report_bottom_district := bottom_district processed_state_data;
               report_state_averages := state_averages processed_state_data;
               report_date_range := date_range processed_state_data;
               district_name := district;
               state_rank := district_rank;
               report_total_districts := total_districts processed_state_data;
               district_info := target_district_data;
               details := processed_district_data |}),
             h)
          end
        end
    end
  end.

(* ===================================================================== *)
(** * Vocabulary of the specification *)
(* ===================================================================== *)

(** There is no collection to aggregate: the payload is [None] or a dict,
    possibly empty, without ['results']. *)
Definition lacks_results (data : option payload) : Prop :=
  match data with
  | None => True
  | Some d => results d = None
  end.

Definition is_number (v : value) : bool :=
  match v with VStr _ => false | _ => true end.

(** The two state averages the work-management source supplies are numbers
    when they are supplied. *)
Definition passthrough_numeric (d : payload) : bool :=
  is_number (rec_get (scalars d) "state_avg_prev" (VInt 0)) &&
  is_number (rec_get (scalars d) "state_avg_curr" (VInt 0)).

(** The average fields of each aggregator: key of the output dict and the
    record field it averages. *)
Definition inspection_state_fields : list (string * string) :=
  [("dpc_ws_visited", "dpc_ws_visited"); ("adpc_ws_visited", "adpc_ws_visited");
   ("dpc_marks", "dpc_marks"); ("adpc_marks", "adpc_marks");
   ("total_marks", "total_visit_marks")]%string.
Definition inspection_district_fields : list (string * string) :=
  [("average_dpc_ws_visited", "dpc_ws_visited");
   ("average_adpc_ws_visited", "adpc_ws_visited");
   ("average_dpc_marks", "dpc_marks"); ("average_adpc_marks", "adpc_marks");
   ("average_total_marks", "total_visit_marks")]%string.
Definition work_state_fields : list (string * string) :=
  [("prev_completion", "prev_completion"); ("curr_completion", "curr_completion");
   ("marks_prev", "marks_prev"); ("marks_curr", "marks_curr");
   ("total_marks", "work_management_total")]%string.
Definition work_district_fields : list (string * string) :=
  [("average_prev_completion", "prev_completion");
   ("average_curr_completion", "curr_completion");
   ("average_marks_prev", "marks_prev"); ("average_marks_curr", "marks_curr");
   ("average_total_marks", "work_management_total")]%string.
Definition zero_muster_state_fields : list (string * string) :=
  [("total_muster_issued", "total_muster_issued");
   ("total_zero_attendance", "total_zero_attendance");
   ("zero_attendance_percentage", "zero_attendance_percentage");
   ("zero_muster_marks", "zero_muster_marks")]%string.
Definition zero_muster_district_fields : list (string * string) :=
  [("average_total_muster_issued", "total_muster_issued");
   ("average_total_zero_attendance", "total_zero_attendance");
   ("average_zero_attendance_percentage", "zero_attendance_percentage");
   ("average_zero_muster_marks", "zero_muster_marks")]%string.

(** The empty child collection is reported gracefully: a result with null
    best and worst names and without average fields. *)
Definition reports_absent_extrema (r : result (option district_output)) : Prop :=
  ∃ out, r = Ok (Some out) ∧
    district_summary out !! "highest_performing_block" = Some JNull ∧
    district_summary out !! "lowest_performing_block" = Some JNull ∧
    Forall (λ kf, district_summary out !! kf.1 = None) work_district_fields.

(** Every average of the table is the two-decimal mean of its field over
    the records as they stand in heap [h]. *)
Definition averages_over (h : heap) (rs : list loc) (fields : list (string * string))
    (lookup : string → option value) : Prop :=
  Forall (λ kf, ∃ v, average h rs kf.2 = Ok v ∧ lookup kf.1 = Some v) fields.

Definition summary_value (o : district_output) (k : string) : option value :=
  match district_summary o !! k with
  | Some (JValue v) => Some v
  | _ => None
  end.

(** What a state aggregator derives from the ranked sequence. *)
Definition state_output_of (h : heap) (rs ranked : list loc)
    (fields : list (string * string)) (out : state_output) : Prop :=
  assign_ranks h ranked = Ok (district_ranks out) ∧
  getitem ranked 0 = Ok (top_district out) ∧
  getlast ranked = Ok (bottom_district out) ∧
  total_districts out = length ranked ∧
  averages_over h rs fields (λ k, state_averages out !! k).

(** What a district aggregator derives from the ranked sequence. *)
Definition district_output_of (h : heap) (rs ranked : list loc)
    (fields : list (string * string)) (out : district_output) : Prop :=
  blocks out = ranked ∧
  district_summary out !! "total_blocks" = Some (JCount (length rs)) ∧
  averages_over h rs fields (summary_value out).

(** Dict keys are equal exactly when they fall in the same class here. *)
Definition key_class (v : value) : Z + string :=
  match v with
  | VInt z => inl (z * unit)
  | VFloat f => inl (float_scaled f)
  | VStr s => inr s
  end.

Definition entity_name (h : heap) (l : loc) : option value :=
  deref h l !! "group_name".



(** The test of one tie-break iteration on records [a] (before) and [b]
    (after): equal marks and strictly more visits for [b]. *)
Definition swap_test (h : heap) (a b : loc) : result bool :=
  marks_a ← rec_getitem (deref h a) "total_visit_marks";
  marks_b ← rec_getitem (deref h b) "total_visit_marks";
  if py_eqb marks_a marks_b then
    visits_a ← total_visits h a;
    visits_b ← total_visits h b;
    sumv_lt visits_a visits_b
  else Ok false.

(** A single bubble pass: [a] is carried along the rest of the sequence and
    exchanged with each neighbour that wins the test against it. *)
Fixpoint bubble_from (h : heap) (a : loc) (rest : list loc) : result (list loc) :=
  match rest with
  | [] => Ok [a]
  | b :: rest' =>
      t ← swap_test h a b;
      if t : bool then cons b <$> bubble_from h a rest'
      else cons a <$> bubble_from h b rest'
  end.

Definition bubble_pass (h : heap) (s : list loc) : result (list loc) :=
  match s with
  | [] => Ok []
  | a :: rest => bubble_from h a rest
  end.

(** The record has no ['total_visit_marks'] field. *)
Definition lacks_marks (h : heap) (l : loc) : Prop :=
  deref h l !! "total_visit_marks" = None.

(** Both visit counts of the record are present and are ints. *)
Definition counts_visits (h : heap) (l : loc) : Prop :=
  ∃ x y, deref h l !! "dpc_ws_visited" = Some (VInt x) ∧
         deref h l !! "adpc_ws_visited" = Some (VInt y).

(** The sort key of the record, with its default, is a number. *)
Definition marks_sortable (h : heap) (l : loc) : Prop :=
  is_number (inspection_key h l) = true.

(** Ascending order of keys: the later element is not below the earlier. *)
Definition key_le {A} (key : A → value) (a b : A) : Prop :=
  py_lt (key b) (key a) = Ok false.

(** No record of the collection has a key above that of [top]. *)
Definition holds_maximum (key : loc → value) (top : loc) (rs : list loc) : Prop :=
  ∀ l, l ∈ rs → py_lt (key top) (key l) = Ok false.

(** No record of the collection has a key below that of [top]. *)
Definition holds_minimum (key : loc → value) (top : loc) (rs : list loc) : Prop :=
  ∀ l, l ∈ rs → py_lt (key l) (key top) = Ok false.

(** Descending order of keys: no element is below a later one. *)
Definition key_ge {A} (key : A → value) (a b : A) : Prop :=
  py_lt (key a) (key b) = Ok false.

(** No two neighbours of the sequence have equal marks. *)
Fixpoint no_adjacent_tie (h : heap) (s : list loc) : Prop :=
  match s with
  | a :: rest =>
      match rest with
      | b :: _ => py_eqb (inspection_key h a) (inspection_key h b) = false
      | [] => True
      end ∧ no_adjacent_tie h rest
  | [] => True
  end.

(** The three pipelines, each with its two aggregators and its [main]. *)
Inductive pipeline : Set := Inspection | WorkManagement | ZeroMuster.

Definition state_aggregator (p : pipeline)
  : option payload → heap → result (option state_output) * heap :=
  match p with
  | Inspection => process_state_inspection_data
  | WorkManagement => process_state_work_data
  | ZeroMuster => process_state_zero_muster_data
  end.

Definition district_aggregator (p : pipeline)
  : option payload → heap → result (option district_output) * heap :=
  match p with
  | Inspection => process_district_inspection_data
  | WorkManagement => process_district_work_data
  | ZeroMuster => process_district_zero_muster_data
  end.

Definition orchestrator (p : pipeline)
  : option payload → option payload → string → heap → result main_outcome * heap :=
  match p with
  | Inspection => main
  | WorkManagement => work_main
  | ZeroMuster => zero_muster_main
  end.

(** The name a district summary reports for a block: null for an empty
    record, else its ['group_name']. *)
Definition reported_name (h : heap) (l : loc) : jval :=
  if bool_decide (deref h l = ∅) then JNull
  else match deref h l !! "group_name" with
       | Some n => JValue n
       | None => JNull
       end.

(** The summary reports block [best] under the first pair of keys and block
    [worst] under the second: name and metric read with a default of 0. *)
Definition reports_extrema (h : heap) (out : district_output) (field : string)
    (best_name best_value worst_name worst_value : string) (best worst : loc) : Prop :=
  head (blocks out) = Some best ∧
  last (blocks out) = Some worst ∧
  district_summary out !! best_name = Some (reported_name h best) ∧
  district_summary out !! best_value
    = Some (JValue (rec_get (deref h best) field (VInt 0))) ∧
  district_summary out !! worst_name = Some (reported_name h worst) ∧
  district_summary out !! worst_value
    = Some (JValue (rec_get (deref h worst) field (VInt 0))).

(** The sort keys of the collection are not all of one kind: one record has
    a number, another a string. *)
Definition mixed_keys (key : loc → value) (rs : list loc) : Prop :=
  ∃ a b, a ∈ rs ∧ b ∈ rs ∧ is_number (key a) = true ∧ is_number (key b) = false.

(** A bound, in units, on the magnitude of the numbers of a payload:
    2^1016, far beyond any mark, count or percentage. *)
Definition magnitude_bound : Z := 2 ^ 2090.

(** The value is a number of magnitude below [B] units. *)
Definition number_below (B : Z) (v : value) : bool :=
  match value_scaled v with
  | Some x => Z.abs x <? B
  | None => false
  end.

(** The record is named, and each averaged field it carries is a number of
    bounded magnitude.  The sort key is one of the averaged fields. *)
Definition well_formed (fields : list (string * string)) (h : heap) (l : loc) : Prop :=
  is_Some (entity_name h l) ∧
  Forall (λ kf, ∀ v, deref h l !! kf.2 = Some v →
                     number_below magnitude_bound v = true) fields.

(** What the tie-break pass subscripts is there: the marks, and both visit
    counts as ints. *)
Definition tie_breakable (h : heap) (l : loc) : Prop :=
  is_Some (deref h l !! "total_visit_marks") ∧ counts_visits h l.

(* ===================================================================== *)
(** * Example collections *)
(* ===================================================================== *)

(** A record of the inspection pipeline. *)
Definition inspection_record (name : string) (marks : value) (dpc adpc : Z) : record :=
  {[ "group_name"%string := VStr name;
     "total_visit_marks"%string := marks;
     "dpc_ws_visited"%string := VInt dpc;
     "adpc_ws_visited"%string := VInt adpc ]}.

(** The state collection of the scenario of the specification: A and B tie
    on 6.0 marks with 5 and 2 visits, C has 4.0 marks. *)
Definition scenario_heap : heap :=
  {[ 0%nat := inspection_record "A" (VFloat (float_lit 6 1)) 3 2;
     1%nat := inspection_record "B" (VFloat (float_lit 6 1)) 1 1;
     2%nat := inspection_record "C" (VFloat (float_lit 4 1)) 0 0 ]}.

Definition scenario_payload : payload :=
  Payload (Some [0; 1; 2]%nat) {[ "range_start"%string := VStr "2025-04-01" ]}.

(** Two blocks of district B, with marks that carry more than two decimals,
    beside the state collection. *)
Definition blocks_heap : heap :=
  <[ 3%nat := inspection_record "B-north" (VFloat (float_lit 7126 1000)) 4 1 ]>
  (<[ 4%nat := inspection_record "B-south" (VFloat (float_lit 3338 1000)) 2 2 ]>
   scenario_heap).

Definition blocks_payload : payload := Payload (Some [3; 4]%nat) ∅.

(** Marks of 0.004 and 0.005. *)
Definition fine_heap : heap :=
  {[ 0%nat := inspection_record "A" (VFloat (float_lit 4 1000)) 1 1;
     1%nat := inspection_record "B" (VFloat (float_lit 5 1000)) 1 1 ]}.

Definition fine_payload : payload := Payload (Some [0; 1]%nat) ∅.



(** Three records tied on 5.0 marks, with 1, 2 and 3 visits. *)
Definition run_heap : heap :=
  {[ 0%nat := inspection_record "X" (VFloat (float_lit 5 1)) 1 0;
     1%nat := inspection_record "Y" (VFloat (float_lit 5 1)) 1 1;
     2%nat := inspection_record "Z" (VFloat (float_lit 5 1)) 2 1 ]}.

Definition run_payload : payload := Payload (Some [0; 1; 2]%nat) ∅.

(** A collection whose second record has no ['total_visit_marks']. *)
Definition partial_heap : heap :=
  {[ 0%nat := inspection_record "A" (VFloat (float_lit 6 1)) 3 2;
     1%nat := {[ "group_name"%string := VStr "B";
                 "dpc_ws_visited"%string := VInt 1;
                 "adpc_ws_visited"%string := VInt 1 ]} ]}.

Definition partial_payload : payload := Payload (Some [0; 1]%nat) ∅.

(** Records of the work-management and of the zero-muster pipeline. *)
Definition work_record (name : string) (prev curr total : value) : record :=
  {[ "group_name"%string := VStr name;
     "prev_completion"%string := prev;
     "curr_completion"%string := curr;
     "work_management_total"%string := total ]}.

Definition work_heap : heap :=
  {[ 0%nat := work_record "A" (VFloat (float_lit 81234 1000)) (VFloat (float_lit 905 10)) (VInt 7);
     1%nat := work_record "B" (VFloat (float_lit 64 1)) (VFloat (float_lit 70125 1000)) (VInt 9) ]}.

Definition work_payload : payload :=
  Payload (Some [0; 1]%nat) {[ "state_avg_prev"%string := VFloat (float_lit 71456 1000) ]}.

Definition zero_muster_record (name : string) (issued zero : Z) (pct : value) : record :=
  {[ "group_name"%string := VStr name;
     "total_muster_issued"%string := VInt issued;
     "total_zero_attendance"%string := VInt zero;
     "zero_attendance_percentage"%string := pct ]}.



(** A zero-muster collection whose second record has no ['group_name']. *)
Definition nameless_heap : heap :=
  {[ 0%nat := zero_muster_record "A" 200 30 (VFloat (float_lit 15 1));
     1%nat := {[ "total_muster_issued"%string := VInt 120;
                 "zero_attendance_percentage"%string := VFloat (float_lit 5 1) ]} ]}.

Definition nameless_payload : payload := Payload (Some [0; 1]%nat) ∅.

(** A zero-muster collection whose second record has no
    ['zero_attendance_percentage']. *)
Definition unmeasured_heap : heap :=
  {[ 0%nat := zero_muster_record "A" 200 30 (VFloat (float_lit 15 1));
     1%nat := {[ "group_name"%string := VStr "B";
                 "total_muster_issued"%string := VInt 0 ]} ]}.

Definition unmeasured_payload : payload := Payload (Some [0; 1]%nat) ∅.

(** An inspection collection whose second record carries its marks as a
    string. *)
Definition textual_heap : heap :=
  {[ 0%nat := inspection_record "A" (VInt 5) 1 1;
     1%nat := inspection_record "B" (VStr "7") 1 1 ]}.

Definition textual_payload : payload := Payload (Some [0; 1]%nat) ∅.

(** A state collection whose marks carry three decimals, 5.678 and 4.127,
    with the two blocks of district B beside it. *)
Definition precise_heap : heap :=
  <[ 3%nat := inspection_record "B-north" (VFloat (float_lit 7126 1000)) 4 1 ]>
  (<[ 4%nat := inspection_record "B-south" (VFloat (float_lit 3338 1000)) 2 2 ]>
   {[ 0%nat := inspection_record "A" (VFloat (float_lit 5678 1000)) 3 2;
      1%nat := inspection_record "B" (VFloat (float_lit 4127 1000)) 1 1 ]}).

Definition precise_payload : payload := Payload (Some [0; 1]%nat) ∅.

(* ===================================================================== *)
(** * Properties: binary64 rounding *)
(* ===================================================================== *)

Section Rounding.

Lemma unit_pos : 0 < unit.
Proof. unfold unit. apply Z.pow_pos_nonneg; lia. Qed.

Lemma unit_split s : 0 <= s <= 1074 -> unit = 2 ^ s * 2 ^ (1074 - s).
Proof. intros H. unfold unit. rewrite <- Z.pow_add_r by lia. f_equal. lia. Qed.

(** [rne_div] is within half of the divisor of the exact quotient. *)
Lemma rne_div_spec p q : 0 < q -> - q <= 2 * (q * rne_div p q - p) <= q.
Proof.
  intros Hq. unfold rne_div.
  pose proof (Z.div_mod p q ltac:(lia)) as E.
  pose proof (Z.mod_pos_bound p q Hq) as B.
  destruct (2 * (p mod q) <? q) eqn:H1; [apply Z.ltb_lt in H1; nia|].
  apply Z.ltb_ge in H1.
  destruct (q <? 2 * (p mod q)) eqn:H2; [apply Z.ltb_lt in H2; nia|].
  apply Z.ltb_ge in H2.
  destruct (Z.even (p / q)); nia.
Qed.

(** An integer strictly within half of the divisor is the rounding. *)
Lemma rne_div_unique p q m :
  0 < q -> 2 * Z.abs (q * m - p) < q -> rne_div p q = m.
Proof.
  intros Hq H. pose proof (rne_div_spec p q Hq) as S.
  assert (Z.abs (q * (rne_div p q - m)) < q * 1) by lia.
  nia.
Qed.

Lemma rne_div_exact m q : 0 < q -> rne_div (m * q) q = m.
Proof.
  intros Hq. apply rne_div_unique; [lia|].
  replace (q * m - m * q) with 0 by ring. simpl. lia.
Qed.

Lemma rne_div_nonneg p q : 0 < q -> 0 <= p -> 0 <= rne_div p q.
Proof. intros Hq Hp. pose proof (rne_div_spec p q Hq). nia. Qed.

Lemma shift53_nonneg t : 0 <= shift53 t.
Proof. unfold shift53. lia. Qed.

Lemma round53_nonneg p q : 0 < q -> 0 <= p -> 0 <= round53 p q.
Proof.
  intros Hq Hp. unfold round53.
  assert (0 < 2 ^ shift53 (p / q)) by (apply Z.pow_pos_nonneg; [lia|apply shift53_nonneg]).
  apply Z.mul_nonneg_nonneg; [|lia].
  apply rne_div_nonneg; [nia|lia].
Qed.

Lemma shift53_small t : t < 2 ^ 53 -> shift53 t = 0.
Proof.
  intros H. unfold shift53.
  destruct (Z.le_gt_cases t 0) as [H0|H0].
  - rewrite Z.log2_nonpos by lia. lia.
  - assert (Z.log2 t < 53) by (apply Z.log2_lt_pow2; lia). lia.
Qed.

Lemma shift53_large t : 2 ^ 53 <= t ->
  0 < shift53 t /\ 2 ^ 52 * 2 ^ shift53 t <= t < 2 ^ 53 * 2 ^ shift53 t.
Proof.
  intros H. unfold shift53.
  assert (0 < t) by lia.
  assert (53 <= Z.log2 t) by (apply Z.log2_le_pow2; lia).
  pose proof (Z.log2_spec t ltac:(lia)) as [L1 L2].
  replace (Z.max 0 (Z.log2 t - 52)) with (Z.log2 t - 52) by lia.
  rewrite <- !Z.pow_add_r by lia.
  replace (52 + (Z.log2 t - 52)) with (Z.log2 t) by lia.
  replace (53 + (Z.log2 t - 52)) with (Z.succ (Z.log2 t)) by lia.
  lia.
Qed.

Lemma shift53_unique t s :
  0 < s -> 2 ^ 52 * 2 ^ s <= t < 2 ^ 53 * 2 ^ s -> shift53 t = s.
Proof.
  intros Hs [H1 H2]. unfold shift53.
  rewrite <- !Z.pow_add_r in * by lia.
  assert (Z.log2 t = 52 + s).
  { apply Z.log2_unique; [lia|].
    replace (Z.succ (52 + s)) with (53 + s) by lia. lia. }
  lia.
Qed.

(** A magnitude with a 53-bit significand [M] above [s] dropped bits is its
    own rounding. *)
Lemma round53_exact M s q :
  0 < q -> 0 < s -> 2 ^ 52 <= M <= 2 ^ 53 ->
  round53 (q * (M * 2 ^ s)) q = M * 2 ^ s.
Proof.
  intros Hq Hs [HM1 HM2]. unfold round53.
  replace (q * (M * 2 ^ s) / q) with (M * 2 ^ s)
    by (symmetry; rewrite (Z.mul_comm q); apply Z.div_mul; lia).
  assert (HW : 0 < 2 ^ s) by (apply Z.pow_pos_nonneg; lia).
  destruct (Z.eq_dec M (2 ^ 53)) as [->|HM].
  - assert (E : shift53 (2 ^ 53 * 2 ^ s) = s + 1).
    { apply shift53_unique; [lia|]. rewrite (Z.pow_add_r 2 s 1) by lia.
      change (2 ^ 1) with 2. remember (2 ^ s) as W. lia. }
    rewrite E. rewrite (Z.pow_add_r 2 s 1) by lia. change (2 ^ 1) with 2.
    remember (2 ^ s) as W.
    replace (q * (2 ^ 53 * W)) with (2 ^ 52 * (q * (W * 2)))
      by (change (2 ^ 53) with (2 ^ 52 * 2); ring).
    rewrite rne_div_exact by lia. change (2 ^ 53) with (2 ^ 52 * 2); ring.
  - rewrite (shift53_unique _ s) by (remember (2 ^ s) as W; nia).
    replace (q * (M * 2 ^ s)) with (M * (q * 2 ^ s)) by ring.
    rewrite rne_div_exact by lia. reflexivity.
Qed.

(** The rounding error is at most half a unit in the last place. *)
Lemma round53_err p q : 0 < q ->
  let s := shift53 (p / q) in
  exists M, round53 p q = M * 2 ^ s /\
            - (q * 2 ^ s) <= 2 * (q * 2 ^ s * M - p) <= q * 2 ^ s.
Proof.
  intros Hq s. exists (rne_div p (q * 2 ^ s)). split; [reflexivity|].
  apply rne_div_spec.
  assert (0 < 2 ^ s) by (apply Z.pow_pos_nonneg; unfold s, shift53; lia). nia.
Qed.

(** Below 2^46 the spacing of floats is under 1/100: the decimal [k / 100]
    is recovered from the float nearest to it. *)
Lemma round2_back_small k s M :
  0 <= s <= 1067 ->
  - (100 * 2 ^ s) <= 2 * (100 * 2 ^ s * M - k * unit) <= 100 * 2 ^ s ->
  rne_div (100 * (M * 2 ^ s)) unit = k.
Proof.
  intros Hs HM. apply rne_div_unique; [apply unit_pos|].
  rewrite (unit_split s) in * by lia.
  assert (HW : 0 < 2 ^ s) by (apply Z.pow_pos_nonneg; lia).
  assert (HD : 2 ^ 7 <= 2 ^ (1074 - s)) by (apply Z.pow_le_mono_r; lia).
  change (2 ^ 7) with 128 in HD.
  remember (2 ^ s) as W. remember (2 ^ (1074 - s)) as D. nia.
Qed.

(** From 2^46 on the spacing is above 1/100: a float is the nearest float
    to its own two-decimal rounding. *)
Lemma round2_fix_large M s :
  1068 <= s -> 2 ^ 52 <= M <= 2 ^ 53 ->
  round53 (rne_div (100 * (M * 2 ^ s)) unit * unit) 100 = M * 2 ^ s.
Proof.
  intros Hs HM.
  assert (HW : 0 < 2 ^ s) by (apply Z.pow_pos_nonneg; lia).
  destruct (Z_le_gt_dec 1074 s) as [Hb|Hb].
  - assert (E : 2 ^ s = 2 ^ (s - 1074) * unit).
    { unfold unit. rewrite <- Z.pow_add_r by lia. f_equal. lia. }
    replace (100 * (M * 2 ^ s)) with (100 * M * 2 ^ (s - 1074) * unit)
      by (rewrite E; ring).
    rewrite rne_div_exact by apply unit_pos.
    replace (100 * M * 2 ^ (s - 1074) * unit) with (100 * (M * 2 ^ s))
      by (rewrite E; ring).
    apply round53_exact; lia.
  - pose proof (rne_div_spec (100 * (M * 2 ^ s)) unit unit_pos) as S.
    set (k' := rne_div (100 * (M * 2 ^ s)) unit) in *.
    rewrite (unit_split s) in * by lia.
    remember (2 ^ s) as W eqn:EW.
    assert (Hd : 1074 - s = 1 \/ 1074 - s = 2 \/ 1074 - s = 3 \/
                 1074 - s = 4 \/ 1074 - s = 5 \/ 1074 - s = 6) by lia.
    assert (Hends : M = 2 ^ 52 \/ M = 2 ^ 53 \/ 2 ^ 52 < M < 2 ^ 53) by lia.
    assert (HD : 0 < 2 ^ (1074 - s)) by (apply Z.pow_pos_nonneg; lia).
    assert (S' : - 2 ^ (1074 - s) <= 2 * (2 ^ (1074 - s) * k' - 100 * M)
                 <= 2 ^ (1074 - s)).
    { remember (2 ^ (1074 - s)) as D. nia. }
    assert (Hcase : k' * (W * 2 ^ (1074 - s)) = 100 * (M * W) \/
                    (2 ^ 52 < M < 2 ^ 53 /\
                     - 64 <= 2 * (k' * 2 ^ (1074 - s) - 100 * M) <= 64)).
    { clear S. destruct Hd as [E|[E|[E|[E|[E|E]]]]]; rewrite E in *;
        match goal with
        | |- context [2 ^ ?c] =>
            let v := eval compute in (2 ^ c) in change (2 ^ c) with v in *
        end;
        (destruct Hends as [->|[->|Hmid]];
         [left| left | right; split; [exact Hmid|lia]]);
        match type of S' with
        | - ?D <= 2 * (_ - 100 * ?m) <= _ =>
            let v := eval compute in m in change m with v in *;
            assert (Ek : k' * D = 100 * v) by lia;
            replace (k' * (W * D)) with (W * (k' * D)) by ring;
            rewrite Ek; ring
        end. }
    destruct Hcase as [Ex|[Hmid Hk]].
    + rewrite Ex, EW. apply round53_exact; lia.
    + remember (2 ^ (1074 - s)) as D.
      unfold round53.
      assert (Hsh : shift53 (k' * (W * D) / 100) = s).
      { apply shift53_unique; [lia|]. rewrite <- EW. split.
        - apply Z.div_le_lower_bound; [lia|]. nia.
        - apply Z.div_lt_upper_bound; [lia|]. nia. }
      rewrite Hsh, <- EW. f_equal.
      apply rne_div_unique; [lia|]. nia.
Qed.

(** The float nearest to a two-decimal number rounds to itself. *)
Lemma round2_fix k : 0 <= k ->
  let y := round53 (k * unit) 100 in
  round53 (rne_div (100 * y) unit * unit) 100 = y.
Proof.
  intros Hk y.
  destruct (round53_err (k * unit) 100 ltac:(lia)) as (M & Ey & HM).
  fold y in Ey. pose proof unit_pos as HU.
  set (t := k * unit / 100) in *.
  assert (Ht : 0 <= t) by (apply Z.div_pos; nia).
  destruct (Z_lt_le_dec t (2 ^ 53)) as [Hsmall|Hbig].
  - rewrite (shift53_small t Hsmall) in *.
    rewrite Ey at 1.
    rewrite (round2_back_small k 0 M); [reflexivity|lia|exact HM].
  - destruct (shift53_large t Hbig) as (Hs & Hlo & Hhi).
    set (s := shift53 t) in *.
    destruct (Z_le_gt_dec s 1067) as [Hr|Hr].
    + rewrite Ey at 1.
      rewrite (round2_back_small k s M); [reflexivity|lia|exact HM].
    + rewrite Ey. apply round2_fix_large; [lia|].
      assert (HW : 0 < 2 ^ s) by (apply Z.pow_pos_nonneg; lia).
      assert (L : 100 * (2 ^ 52 * 2 ^ s) <= k * unit).
      { transitivity (100 * t); [lia|]. apply Z.mul_div_le. lia. }
      assert (R : k * unit < 100 * (2 ^ 53 * 2 ^ s)).
      { pose proof (Z.mul_succ_div_gt (k * unit) 100 ltac:(lia)) as G.
        fold t in G. lia. }
      remember (2 ^ s) as W. remember (k * unit) as P. nia.
Qed.

(** [round(round(x, 2), 2) == round(x, 2)], bit for bit. *)
Lemma round2_idem x : round2 (round2 x) = round2 x.
Proof.
  unfold round2 at 1. simpl.
  set (k := rne_div (100 * Z.of_N (fmag x)) unit).
  assert (Hk : 0 <= k) by (apply rne_div_nonneg; [apply unit_pos|lia]).
  pose proof (round53_nonneg (k * unit) 100 ltac:(lia)
                ltac:(pose proof unit_pos; nia)) as Hy.
  rewrite Z2N.id by exact Hy.
  unfold round2. fold k. f_equal. f_equal. apply round2_fix. exact Hk.
Qed.

End Rounding.

(* ===================================================================== *)
(** * Properties: normalisation *)
(* ===================================================================== *)

Lemma normalize_value_idem v : normalize_value (normalize_value v) = normalize_value v.
Proof. destruct v; simpl; [reflexivity| |reflexivity]. by rewrite round2_idem. Qed.

Lemma normalize_record_idem (r : gmap string value) :
  normalize_record (normalize_record r) = normalize_record r.
Proof.
  unfold normalize_record. rewrite <- map_fmap_compose.
  apply map_fmap_ext. intros k v _. apply normalize_value_idem.
Qed.

Lemma normalize_nil (h : gmap nat (gmap string value)) : normalize [] h = h.
Proof. reflexivity. Qed.

Lemma normalize_cons l rs (h : gmap nat (gmap string value)) :
  normalize (l :: rs) h = normalize rs (alter normalize_record l h).
Proof. reflexivity. Qed.

(** A record of the collection ends up normalised once, however often the
    collection refers to it; the other records are left alone. *)
Lemma normalize_lookup rs (h : gmap nat (gmap string value)) l :
  normalize rs h !! l =
  if decide (l ∈ rs) then normalize_record <$> h !! l else h !! l.
Proof.
  revert h. induction rs as [|a rs IH]; intros h.
  - rewrite normalize_nil. destruct (decide (l ∈ [])) as [H|H]; [|done].
    by apply elem_of_nil in H.
  - rewrite normalize_cons, IH.
    destruct (decide (l = a)) as [->|Hne].
    + rewrite lookup_alter_eq.
      destruct (decide (a ∈ a :: rs)) as [_|H]; [|exfalso; apply H; left].
      destruct (decide (a ∈ rs)); [|done].
      destruct (h !! a) as [r|]; simpl; [|done].
      by rewrite normalize_record_idem.
    + rewrite lookup_alter_ne by done.
      destruct (decide (l ∈ rs)) as [H|H], (decide (l ∈ a :: rs)) as [H'|H'];
        try done.
      * exfalso. apply H'. by right.
      * exfalso. apply elem_of_cons in H' as [?|?]; done.
Qed.

Lemma normalize_idem rs (h : gmap nat (gmap string value)) :
  normalize rs (normalize rs h) = normalize rs h.
Proof.
  apply map_eq. intros l. rewrite !normalize_lookup.
  destruct (decide (l ∈ rs)); [|done].
  destruct (h !! l) as [r|]; simpl; [|done].
  by rewrite normalize_record_idem.
Qed.

Lemma deref_normalize rs (h : gmap nat (gmap string value)) l :
  l ∈ rs → deref (normalize rs h) l = normalize_record (deref h l).
Proof.
  intros Hl. unfold deref. rewrite !lookup_total_alt, normalize_lookup.
  destruct (decide (l ∈ rs)); [|done].
  destruct (h !! l); simpl; [done|].
  unfold normalize_record. by rewrite fmap_empty.
Qed.

Lemma normalize_record_lookup (r : gmap string value) k :
  normalize_record r !! k = normalize_value <$> r !! k.
Proof. unfold normalize_record. apply lookup_fmap. Qed.

(* ===================================================================== *)
(** * Properties: payloads without a collection, and empty collections *)
(* ===================================================================== *)

Lemma payload_with_results_truthy d rs : results d = Some rs → payload_falsy d = false.
Proof. intros H. unfold payload_falsy. by rewrite H. Qed.

(** C8: an input that is [None], an empty dict or a dict without the
    ['results'] field makes each state aggregator return [None]; nothing is
    raised and no record is touched. *)
Theorem no_collection_returns_none data h :
  lacks_results data →
  process_state_inspection_data data h = (Ok None, h) ∧
  process_state_work_data data h = (Ok None, h) ∧
  process_state_zero_muster_data data h = (Ok None, h).
Proof.
  intros H. destruct data as [d|]; [|done]. simpl in H.
  unfold process_state_inspection_data, process_state_work_data,
    process_state_zero_muster_data.
  rewrite H. by destruct (payload_falsy d).
Qed.

Lemma no_collection_returns_none_witness :
  let data := Some (Payload None {[ "range_start"%string := VStr "2025-04-01" ]}) in
  let h : gmap nat (gmap string value) := {[ 0%nat := {[ "group_name"%string := VStr "Sagar" ]} ]} in
  lacks_results data ∧
  process_state_inspection_data data h = (Ok None, h) ∧
  process_state_work_data data h = (Ok None, h) ∧
  process_state_zero_muster_data data h = (Ok None, h).
Proof.
  intros data h. split; [reflexivity|].
  apply no_collection_returns_none. reflexivity.
Defined.

(** C5: on a payload whose ['results'] is present and empty, the three
    state aggregators raise instead of returning a result: [IndexError] from
    [sorted_districts[0]]; the work-management one raises [TypeError] before
    that when a supplied state average is not a number. *)
Theorem empty_state_collection_raises d h :
  results d = Some [] →
  process_state_inspection_data (Some d) h = (Raise IndexError, h) ∧
  process_state_zero_muster_data (Some d) h = (Raise IndexError, h) ∧
  process_state_work_data (Some d) h =
    (Raise (if passthrough_numeric d then IndexError else TypeError), h).
Proof.
  intros H.
  unfold process_state_inspection_data, process_state_work_data,
    process_state_zero_muster_data.
  rewrite (payload_with_results_truthy d [] H), H.
  repeat split; try reflexivity.
  unfold passthrough_numeric.
  destruct (rec_get (scalars d) "state_avg_prev" (VInt 0));
    destruct (rec_get (scalars d) "state_avg_curr" (VInt 0)); reflexivity.
Qed.

Lemma empty_state_collection_raises_witness :
  let d := Payload (Some []) {[ "range_start"%string := VStr "2025-04-01" ]} in
  results d = Some [] ∧
  process_state_inspection_data (Some d) ∅ = (Raise IndexError, ∅) ∧
  process_state_zero_muster_data (Some d) ∅ = (Raise IndexError, ∅) ∧
  process_state_work_data (Some d) ∅ = (Raise IndexError, ∅).
Proof.
  intros d. split; [reflexivity|].
  exact (empty_state_collection_raises d ∅ eq_refl).
Defined.

(** C4, as the specification states it, fails on the empty collection. *)
Lemma empty_work_district_not_graceful :
  ¬ reports_absent_extrema
      (process_district_work_data (Some (Payload (Some []) ∅)) ∅).1.
Proof. intros (out & H & _). discriminate H. Qed.

(** C4, amended: on the work-management pipeline an empty child collection
    makes the district aggregator raise, [StatisticsError] from the mean of
    no data (or [TypeError] before it when a supplied state average is not a
    number); no summary is returned. *)
Theorem empty_work_district_raises d h :
  results d = Some [] →
  process_district_work_data (Some d) h =
    (Raise (if passthrough_numeric d then StatisticsError else TypeError), h) ∧
  ¬ reports_absent_extrema (process_district_work_data (Some d) h).1.
Proof.
  intros H.
  assert (E : process_district_work_data (Some d) h =
    (Raise (if passthrough_numeric d then StatisticsError else TypeError), h)).
  { unfold process_district_work_data.
    rewrite (payload_with_results_truthy d [] H), H.
    unfold passthrough_numeric.
    destruct (rec_get (scalars d) "state_avg_prev" (VInt 0));
      destruct (rec_get (scalars d) "state_avg_curr" (VInt 0)); reflexivity. }
  split; [exact E|]. rewrite E. intros (out & Ho & _). discriminate Ho.
Qed.

Lemma empty_work_district_raises_witness :
  let d := Payload (Some []) {[ "state_avg_prev"%string := VFloat (float_lit 4125 100) ]} in
  results d = Some [] ∧
  process_district_work_data (Some d) ∅ = (Raise StatisticsError, ∅).
Proof.
  intros d. split; [reflexivity|].
  exact (proj1 (empty_work_district_raises d ∅ eq_refl)).
Defined.

(** C7: numeric normalisation is idempotent, on a record and on a whole
    collection; it rounds the floats and leaves ints and strings as they
    are. *)
Theorem normalization_idempotent :
  (∀ rs (h : gmap nat (gmap string value)), normalize rs (normalize rs h) = normalize rs h) ∧
  (∀ r : gmap string value, normalize_record (normalize_record r) = normalize_record r) ∧
  (∀ (r : gmap string value) k,
     normalize_record r !! k =
     match r !! k with
     | Some (VFloat f) => Some (VFloat (round2 f))
     | other => other
     end).
Proof.
  split; [exact normalize_idem|]. split; [exact normalize_record_idem|].
  intros r k. rewrite normalize_record_lookup.
  by destruct (r !! k) as [[]|].
Qed.

(* ===================================================================== *)
(** * Properties: the result monad, [sorted] and the tie-break pass *)
(* ===================================================================== *)

Lemma bind_ok_inv {A B} (m : result A) (f : A → result B) b :
  m ≫= f = Ok b → ∃ a, m = Ok a ∧ f a = Ok b.
Proof. destruct m as [a|e]; [|discriminate]. intros H. by exists a. Qed.

Lemma fmap_ok_inv {A B} (m : result A) (f : A → B) b :
  f <$> m = Ok b → ∃ a, m = Ok a ∧ b = f a.
Proof. destruct m as [a|e]; [|discriminate]. intros [= <-]. by exists a. Qed.

Lemma fmap_fmap_result {A B C} (f : A → B) (g : B → C) (m : result A) :
  g <$> (f <$> m) = (g ∘ f) <$> m.
Proof. by destruct m. Qed.

Ltac inv_binds H :=
  repeat
    (let x := fresh "x" in
     let Hx := fresh "Hx" in
     apply bind_ok_inv in H as (x & Hx & H)).

Lemma insert_by_perm {A} (key : A → value) x l l' :
  insert_by key x l = Ok l' → l' ≡ₚ x :: l.
Proof.
  revert l'. induction l as [|y l IH]; intros l' H; simpl in H.
  - by injection H as <-.
  - apply bind_ok_inv in H as ([] & _ & H).
    + by injection H as <-.
    + apply fmap_ok_inv in H as (r & Hr & ->).
      rewrite (IH r Hr). apply perm_swap.
Qed.

Lemma sort_fold_raise {A} (key : A → value) e l :
  foldl (λ acc x, s ← acc; insert_by key x s) (Raise e) l = Raise e.
Proof. induction l as [|x l IH]; [done|]. simpl. exact IH. Qed.

Lemma sort_fold_perm {A} (key : A → value) acc l l' :
  foldl (λ acc x, s ← acc; insert_by key x s) (Ok acc) l = Ok l' →
  l' ≡ₚ acc ++ l.
Proof.
  revert acc. induction l as [|x l IH]; intros acc H; simpl in H.
  - injection H as <-. by rewrite app_nil_r.
  - destruct (insert_by key x acc) as [acc'|e] eqn:E; simpl in H.
    + rewrite (IH acc' H), (insert_by_perm key x acc acc' E).
      by rewrite <- Permutation_middle.
    + by rewrite sort_fold_raise in H.
Qed.

Lemma sort_by_perm {A} (key : A → value) l l' :
  sort_by key l = Ok l' → l' ≡ₚ l.
Proof. intros H. by apply sort_fold_perm in H. Qed.

(** [sorted] returns the elements it was given, each as often. *)
Lemma sorted_perm {A} (l : list A) key reverse l' :
  sorted l key reverse = Ok l' → l' ≡ₚ l.
Proof.
  unfold sorted. destruct reverse; intros H.
  - apply fmap_ok_inv in H as (r & Hr & ->).
    apply (sort_by_perm key) in Hr.
    by rewrite <- Permutation_rev, Hr, <- Permutation_rev.
  - by apply (sort_by_perm key).
Qed.

Lemma getitem_middle {A} (pre : list A) a post :
  getitem (pre ++ a :: post) (length pre) = Ok a.
Proof. unfold getitem. by rewrite list_lookup_middle. Qed.

Lemma getitem_middle_next {A} (pre : list A) a b post :
  getitem (pre ++ a :: b :: post) (length pre + 1) = Ok b.
Proof.
  replace (pre ++ a :: b :: post) with ((pre ++ [a]) ++ b :: post)
    by (by rewrite <- app_assoc).
  replace (length pre + 1)%nat with (length (pre ++ [a]))
    by (rewrite length_app; simpl; lia).
  apply getitem_middle.
Qed.

Lemma swap_middle {A} (pre : list A) a b post :
  <[length pre := b]> (<[(length pre + 1)%nat := a]> (pre ++ a :: b :: post)) =
  pre ++ b :: a :: post.
Proof.
  rewrite insert_app_r_alt by lia.
  replace (length pre + 1 - length pre)%nat with 1%nat by lia. simpl.
  rewrite insert_app_r_alt by lia. by rewrite Nat.sub_diag.
Qed.

(** Inside the loop both subscripts are in range, and the iteration is the
    test followed by the exchange. *)
Lemma tie_step_app h pre a b post :
  tie_step h (length pre) (pre ++ a :: b :: post) =
  (t ← swap_test h a b;
   Ok (if t : bool then pre ++ b :: a :: post else pre ++ a :: b :: post)).
Proof.
  unfold tie_step, swap_test.
  rewrite getitem_middle, getitem_middle_next. simpl.
  destruct (rec_getitem (deref h a) "total_visit_marks") as [ma|]; [simpl|done].
  destruct (rec_getitem (deref h b) "total_visit_marks") as [mb|]; [simpl|done].
  destruct (py_eqb ma mb); [|done].
  destruct (total_visits h a) as [va|]; [simpl|done].
  destruct (total_visits h b) as [vb|]; [simpl|done].
  destruct (sumv_lt va vb) as [[]|]; simpl; [|done..].
  by rewrite swap_middle.
Qed.

Lemma tie_loop_bubble h rest : ∀ pre a,
  tie_loop h (length pre) (length rest) (pre ++ a :: rest) =
  app pre <$> bubble_from h a rest.
Proof.
  induction rest as [|b rest IH]; intros pre a; [done|].
  simpl. rewrite tie_step_app.
  destruct (swap_test h a b) as [[]|e]; simpl; [| |done].
  - replace (S (length pre)) with (length (pre ++ [b])) by (rewrite length_app; simpl; lia).
    replace (pre ++ b :: a :: rest) with ((pre ++ [b]) ++ a :: rest) by (by rewrite <- app_assoc).
    rewrite IH, fmap_fmap_result. destruct (bubble_from h a rest); simpl; [|done].
    by rewrite <- app_assoc.
  - replace (S (length pre)) with (length (pre ++ [a])) by (rewrite length_app; simpl; lia).
    replace (pre ++ a :: b :: rest) with ((pre ++ [a]) ++ b :: rest) by (by rewrite <- app_assoc).
    rewrite IH, fmap_fmap_result. destruct (bubble_from h b rest); simpl; [|done].
    by rewrite <- app_assoc.
Qed.

(** The index loop of the source is a single bubble pass. *)
Lemma tie_break_pass_bubble h s : tie_break_pass h s = bubble_pass h s.
Proof.
  unfold tie_break_pass. destruct s as [|a rest]; [done|].
  replace (length (a :: rest) - 1)%nat with (length rest) by (simpl; lia).
  pose proof (tie_loop_bubble h rest [] a) as E.
  change (tie_loop h 0 (length rest) (a :: rest) = app [] <$> bubble_from h a rest) in E.
  rewrite E. simpl. by destruct (bubble_from h a rest).
Qed.

Lemma bubble_from_perm h rest : ∀ a r,
  bubble_from h a rest = Ok r → r ≡ₚ a :: rest.
Proof.
  induction rest as [|b rest IH]; intros a r H; simpl in H.
  - by injection H as <-.
  - apply bind_ok_inv in H as ([] & _ & H);
      apply fmap_ok_inv in H as (r' & Hr & ->); rewrite (IH _ _ Hr).
    + apply perm_swap.
    + done.
Qed.

Lemma tie_break_pass_perm h s s' : tie_break_pass h s = Ok s' → s' ≡ₚ s.
Proof.
  rewrite tie_break_pass_bubble. destruct s as [|a rest]; simpl.
  - by intros [= <-].
  - apply bubble_from_perm.
Qed.

(* ===================================================================== *)
(** * Properties: what each aggregator computes *)
(* ===================================================================== *)

Ltac solve_averages :=
  unfold averages_over;
  repeat (apply Forall_cons; split; [eexists; split; [eassumption|reflexivity]|]);
  apply Forall_nil_2.

Lemma process_state_inspection_inv d rs h out h' :
  results d = Some rs →
  process_state_inspection_data (Some d) h = (Ok (Some out), h') →
  h' = normalize rs h ∧
  ∃ s ranked,
    sorted rs (inspection_key h') true = Ok s ∧
    tie_break_pass h' s = Ok ranked ∧
    state_output_of h' rs ranked inspection_state_fields out ∧
    date_range out =
      Some (rec_get (scalars d) "range_start" (VStr ""),
            rec_get (scalars d) "range_end" (VStr "")).
Proof.
  intros Hrs H. unfold process_state_inspection_data in H.
  rewrite (payload_with_results_truthy d rs Hrs), Hrs in H.
  injection H as H <-. split; [reflexivity|].
  inv_binds H. injection H as <-.
  eexists _, _. split; [eassumption|]. split; [eassumption|].
  split; [|reflexivity].
  unfold state_output_of; simpl. repeat (split; [eassumption || reflexivity|]).
  solve_averages.
Qed.

Lemma process_state_work_inv d rs h out h' :
  results d = Some rs →
  process_state_work_data (Some d) h = (Ok (Some out), h') →
  h' = normalize rs h ∧
  ∃ ranked,
    sorted rs (work_key h') true = Ok ranked ∧
    state_output_of h' rs ranked work_state_fields out.
Proof.
  intros Hrs H. unfold process_state_work_data in H.
  rewrite (payload_with_results_truthy d rs Hrs), Hrs in H.
  injection H as H <-. split; [reflexivity|].
  inv_binds H. injection H as <-.
  eexists. split; [eassumption|].
  unfold state_output_of; simpl. repeat (split; [eassumption || reflexivity|]).
  solve_averages.
Qed.

Lemma process_state_zero_muster_inv d rs h out h' :
  results d = Some rs →
  process_state_zero_muster_data (Some d) h = (Ok (Some out), h') →
  h' = normalize rs h ∧
  ∃ ranked,
    sorted rs (zero_muster_key h') false = Ok ranked ∧
    state_output_of h' rs ranked zero_muster_state_fields out.
Proof.
  intros Hrs H. unfold process_state_zero_muster_data in H.
  rewrite (payload_with_results_truthy d rs Hrs), Hrs in H.
  injection H as H <-. split; [reflexivity|].
  inv_binds H. injection H as <-.
  eexists. split; [eassumption|].
  unfold state_output_of; simpl. repeat (split; [eassumption || reflexivity|]).
  solve_averages.
Qed.

Lemma process_district_inspection_inv d rs h out h' :
  results d = Some rs →
  process_district_inspection_data (Some d) h = (Ok (Some out), h') →
  h' = normalize rs h ∧
  ∃ s ranked,
    sorted rs (inspection_key h') true = Ok s ∧
    tie_break_pass h' s = Ok ranked ∧
    district_output_of h' rs ranked inspection_district_fields out.
Proof.
  intros Hrs H. unfold process_district_inspection_data in H.
  rewrite (payload_with_results_truthy d rs Hrs), Hrs in H.
  injection H as H <-. split; [reflexivity|].
  inv_binds H. injection H as <-.
  eexists _, _. split; [eassumption|]. split; [eassumption|].
  unfold district_output_of; simpl. repeat (split; [reflexivity|]).
  unfold summary_value; simpl. solve_averages.
Qed.

Lemma process_district_work_inv d rs h out h' :
  results d = Some rs →
  process_district_work_data (Some d) h = (Ok (Some out), h') →
  h' = normalize rs h ∧
  ∃ ranked,
    sorted rs (work_key h') true = Ok ranked ∧
    district_output_of h' rs ranked work_district_fields out.
Proof.
  intros Hrs H. unfold process_district_work_data in H.
  rewrite (payload_with_results_truthy d rs Hrs), Hrs in H.
  injection H as H <-. split; [reflexivity|].
  inv_binds H. injection H as <-.
  eexists. split; [eassumption|].
  unfold district_output_of; simpl. repeat (split; [reflexivity|]).
  unfold summary_value; simpl. solve_averages.
Qed.

Lemma process_district_zero_muster_inv d rs h out h' :
  results d = Some rs →
  process_district_zero_muster_data (Some d) h = (Ok (Some out), h') →
  h' = normalize rs h ∧
  ∃ ranked,
    sorted rs (zero_muster_key h') false = Ok ranked ∧
    district_output_of h' rs ranked zero_muster_district_fields out.
Proof.
  intros Hrs H. unfold process_district_zero_muster_data in H.
  rewrite (payload_with_results_truthy d rs Hrs), Hrs in H.
  injection H as H <-. split; [reflexivity|].
  inv_binds H. injection H as <-.
  eexists. split; [eassumption|].
  unfold district_output_of; simpl. repeat (split; [reflexivity|]).
  unfold summary_value; simpl. solve_averages.
Qed.

(** Whatever the outcome, an aggregator that got a collection leaves the
    heap with that collection normalised. *)
Lemma process_heap d rs h :
  results d = Some rs →
  (process_state_inspection_data (Some d) h).2 = normalize rs h ∧
  (process_district_inspection_data (Some d) h).2 = normalize rs h ∧
  (process_state_work_data (Some d) h).2 = normalize rs h ∧
  (process_district_work_data (Some d) h).2 = normalize rs h ∧
  (process_state_zero_muster_data (Some d) h).2 = normalize rs h ∧
  (process_district_zero_muster_data (Some d) h).2 = normalize rs h.
Proof.
  intros Hrs.
  unfold process_state_inspection_data, process_district_inspection_data,
    process_state_work_data, process_district_work_data,
    process_state_zero_muster_data, process_district_zero_muster_data.
  rewrite (payload_with_results_truthy d rs Hrs), Hrs. done.
Qed.

(* ===================================================================== *)
(** * Properties: in-place normalisation and shared records *)
(* ===================================================================== *)

Lemma getitem_elem_of {A} (l : list A) i x : getitem l i = Ok x → x ∈ l.
Proof.
  unfold getitem. destruct (l !! i) eqn:E; [|discriminate].
  intros [= <-]. by eapply list_elem_of_lookup_2.
Qed.

Lemma state_output_refs h rs ranked fields out :
  ranked ≡ₚ rs → state_output_of h rs ranked fields out →
  top_district out ∈ rs ∧ bottom_district out ∈ rs.
Proof.
  intros Hp (_ & Ht & Hb & _). rewrite <- Hp.
  split; eapply getitem_elem_of; eassumption.
Qed.

Lemma find_district_elem_of h rs district l :
  find_district h rs district = Ok (Some l) → l ∈ rs.
Proof.
  induction rs as [|a rs IH]; simpl; [discriminate|].
  intros H. apply bind_ok_inv in H as (name & _ & H).
  destruct (py_eqb name (VStr district)).
  - injection H as <-. left.
  - right. by apply IH.
Qed.

Lemma normalize_twice_lookup rs rs' (h : gmap nat (gmap string value)) l :
  l ∈ rs →
  normalize rs' (normalize rs h) !! l = normalize_record <$> h !! l.
Proof.
  intros Hl. rewrite !normalize_lookup.
  destruct (decide (l ∈ rs)); [|done].
  destruct (decide (l ∈ rs')); [|done].
  destruct (h !! l); simpl; [|done]. by rewrite normalize_record_idem.
Qed.

(** The record [main] looks up in the raw state payload after the two
    aggregators ran is a record of that payload, and it is normalised. *)
Lemma main_district_info sd rs dd district h r h' l :
  results sd = Some rs →
  main (Some sd) dd district h = (Ok (MainData r), h') →
  district_info r = Some l →
  l ∈ rs ∧ h' !! l = normalize_record <$> h !! l.
Proof.
  intros Hrs H Hl. unfold main in H.
  rewrite (payload_with_results_truthy sd rs Hrs) in H.
  pose proof (proj1 (process_heap sd rs h Hrs)) as Hh1.
  destruct (process_state_inspection_data (Some sd) h) as [[[ps|]|e] h1] eqn:E1;
    [|by injection H|by injection H].
  simpl in Hh1. subst h1.
  destruct (bool_decide (district = ""%string)); [by injection H|].
  destruct dd as [dd|]; [|by injection H].
  destruct (payload_falsy dd) eqn:Ef; [by injection H|].
  destruct (results dd) as [rs'|] eqn:Hrs'.
  - pose proof (proj1 (proj2 (process_heap dd rs' (normalize rs h) Hrs'))) as Hh2.
    destruct (process_district_inspection_data (Some dd) (normalize rs h))
      as [[[pd|]|e] h2] eqn:E2; [|by injection H|by injection H].
    simpl in Hh2. subst h2. rewrite Hrs in H. simpl in H.
    injection H as H <-.
    apply bind_ok_inv in H as (t & Ht & H). injection H as <-.
    simpl in Hl. subst t.
    apply find_district_elem_of in Ht.
    split; [exact Ht|]. by apply normalize_twice_lookup.
  - unfold process_district_inspection_data in H. rewrite Ef, Hrs' in H.
    by injection H.
Qed.

(** What the normalisation pass leaves in a field: a float is replaced by
    its rounding to two decimals; an int, a string and an absent field are
    as before. *)
Lemma normalize_record_field (r : gmap string value) k :
  normalize_record r !! k =
  match r !! k with
  | Some (VFloat f) => Some (VFloat (round2 f))
  | other => other
  end.
Proof. rewrite normalize_record_lookup. by destruct (r !! k) as [[]|]. Qed.

Lemma deref_normalized (h h' : gmap nat (gmap string value)) l :
  h' !! l = normalize_record <$> h !! l → deref h' l = normalize_record (deref h l).
Proof.
  intros H. unfold deref. rewrite !lookup_total_alt, H.
  destruct (h !! l); simpl; [done|]. unfold normalize_record. by rewrite fmap_empty.
Qed.

(** C10: each of the six aggregators normalises the records of the
    collection it is given in place: whatever it returns or raises, the heap
    it leaves holds the rounded values under the references of the input,
    every float field of such a record being replaced by its rounding to
    two decimals and every other field left as it was; the records in the
    output (top and bottom district, sorted blocks) are references into the
    input collection; and the record [main] looks up in the raw state
    payload afterwards is one of them, its float fields already rounded. *)
Theorem aggregators_normalize_in_place d rs h :
  results d = Some rs →
  ((process_state_inspection_data (Some d) h).2 = normalize rs h ∧
   (process_district_inspection_data (Some d) h).2 = normalize rs h ∧
   (process_state_work_data (Some d) h).2 = normalize rs h ∧
   (process_district_work_data (Some d) h).2 = normalize rs h ∧
   (process_state_zero_muster_data (Some d) h).2 = normalize rs h ∧
   (process_district_zero_muster_data (Some d) h).2 = normalize rs h) ∧
  (∀ l, l ∈ rs → normalize rs h !! l = normalize_record <$> h !! l) ∧
  (∀ l, l ∉ rs → normalize rs h !! l = h !! l) ∧
  (∀ l k, l ∈ rs →
     deref (normalize rs h) l !! k =
     match deref h l !! k with
     | Some (VFloat f) => Some (VFloat (round2 f))
     | other => other
     end) ∧
  (∀ out h',
     process_state_inspection_data (Some d) h = (Ok (Some out), h') ∨
     process_state_work_data (Some d) h = (Ok (Some out), h') ∨
     process_state_zero_muster_data (Some d) h = (Ok (Some out), h') →
     top_district out ∈ rs ∧ bottom_district out ∈ rs) ∧
  (∀ out h',
     process_district_inspection_data (Some d) h = (Ok (Some out), h') ∨
     process_district_work_data (Some d) h = (Ok (Some out), h') ∨
     process_district_zero_muster_data (Some d) h = (Ok (Some out), h') →
     blocks out ≡ₚ rs) ∧
  (∀ district_data district r h' l,
     main (Some d) district_data district h = (Ok (MainData r), h') →
     district_info r = Some l →
     l ∈ rs ∧ h' !! l = normalize_record <$> h !! l ∧
     ∀ k, deref h' l !! k =
          match deref h l !! k with
          | Some (VFloat f) => Some (VFloat (round2 f))
          | other => other
          end).
Proof.
  intros Hrs. split; [by apply process_heap|].
  split; [intros l Hl; rewrite normalize_lookup; by destruct (decide (l ∈ rs))|].
  split; [intros l Hl; rewrite normalize_lookup; by destruct (decide (l ∈ rs))|].
  split; [intros l k Hl; rewrite deref_normalize by done; apply normalize_record_field|].
  split; [|split].
  - intros out h' [H|[H|H]].
    + apply (process_state_inspection_inv d rs) in H as (_ & s & ranked & Hs & Ht & Ho & _); [|done].
      eapply state_output_refs; [|exact Ho].
      rewrite (tie_break_pass_perm _ _ _ Ht). by eapply sorted_perm.
    + apply (process_state_work_inv d rs) in H as (_ & ranked & Hs & Ho); [|done].
      eapply state_output_refs; [|exact Ho]. by eapply sorted_perm.
    + apply (process_state_zero_muster_inv d rs) in H as (_ & ranked & Hs & Ho); [|done].
      eapply state_output_refs; [|exact Ho]. by eapply sorted_perm.
  - intros out h' [H|[H|H]].
    + apply (process_district_inspection_inv d rs) in H as (_ & s & ranked & Hs & Ht & Ho & _); [|done].
      rewrite Ho, (tie_break_pass_perm _ _ _ Ht). by eapply sorted_perm.
    + apply (process_district_work_inv d rs) in H as (_ & ranked & Hs & Ho & _); [|done].
      rewrite Ho. by eapply sorted_perm.
    + apply (process_district_zero_muster_inv d rs) in H as (_ & ranked & Hs & Ho & _); [|done].
      rewrite Ho. by eapply sorted_perm.
  - intros dd district r h' l H Hl.
    destruct (main_district_info d rs dd district h r h' l Hrs H Hl) as [Hin Hh].
    split; [exact Hin|]. split; [exact Hh|].
    intros k. rewrite (deref_normalized h h' l Hh). apply normalize_record_field.
Qed.

Lemma aggregators_normalize_in_place_witness :
  results precise_payload = Some [0; 1]%nat ∧
  deref precise_heap 1%nat !! "total_visit_marks" = Some (VFloat (float_lit 4127 1000)) ∧
  float_lit 413 100 ≠ float_lit 4127 1000 ∧
  (process_state_inspection_data (Some precise_payload) precise_heap).2
    = normalize [0; 1]%nat precise_heap ∧
  deref (process_state_inspection_data (Some precise_payload) precise_heap).2 0%nat
    !! "total_visit_marks" = Some (VFloat (float_lit 568 100)) ∧
  ∃ r h',
    main (Some precise_payload) (Some blocks_payload) "B" precise_heap
      = (Ok (MainData r), h') ∧
    district_info r = Some 1%nat ∧
    deref h' 1%nat !! "total_visit_marks" = Some (VFloat (float_lit 413 100)) ∧
    deref h' 1%nat !! "dpc_ws_visited" = Some (VInt 1) ∧
    deref h' 1%nat !! "group_name" = Some (VStr "B").
Proof.
  pose proof (aggregators_normalize_in_place precise_payload [0; 1]%nat
                precise_heap eq_refl) as (Hheap & _ & _ & Hfield & _ & _ & Hmain).
  split; [reflexivity|]. split; [vm_compute; reflexivity|].
  split; [vm_compute; discriminate|].
  split; [exact (proj1 Hheap)|].
  split.
  { rewrite (proj1 Hheap), (Hfield 0%nat "total_visit_marks"%string)
      by (apply elem_of_cons; by left).
    vm_compute. reflexivity. }
  assert (Hd : match (main (Some precise_payload) (Some blocks_payload) "B"
                        precise_heap).1 with
               | Ok (MainData r) => district_info r = Some 1%nat
               | _ => False
               end) by (vm_compute; reflexivity).
  specialize (Hmain (Some blocks_payload) "B"%string).
  destruct (main (Some precise_payload) (Some blocks_payload) "B" precise_heap)
    as [[[| |r]|] h']; simpl in Hd; try contradiction.
  exists r, h'. split; [reflexivity|]. split; [exact Hd|].
  destruct (Hmain r h' 1%nat eq_refl Hd) as (_ & _ & Hk).
  rewrite !Hk. repeat split; vm_compute; reflexivity.
Defined.

(* ===================================================================== *)
(** * Properties: averages *)
(* ===================================================================== *)

Lemma rec_get_normalize (r : gmap string value) field :
  rec_get (normalize_record r) field (VInt 0) =
  normalize_value (rec_get r field (VInt 0)).
Proof.
  unfold rec_get. rewrite normalize_record_lookup. by destruct (r !! field).
Qed.

(** After the normalisation pass an average is taken over the rounded
    values of the field, a record without the field counting as 0. *)
Lemma average_normalize rs (h : gmap nat (gmap string value)) field :
  average (normalize rs h) rs field =
  (m ← mean (map (λ l, normalize_value (rec_get (deref h l) field (VInt 0))) rs);
   py_round2 m).
Proof.
  unfold average. f_equal. f_equal. apply map_ext_in. intros l Hl.
  rewrite deref_normalize by (by apply list_elem_of_In).
  apply rec_get_normalize.
Qed.

(** C6, as the specification states it, fails: with marks 0.004 and 0.005
    the reported average is 0.01, the mean of the rounded marks 0.0 and
    0.01, whereas the mean 0.0045 of the input rounds to 0.0. *)
Lemma average_not_over_raw_input :
  ∃ out h',
    process_state_inspection_data (Some fine_payload) fine_heap = (Ok (Some out), h') ∧
    state_averages out !! "total_marks"%string = Some (VFloat (float_lit 1 100)) ∧
    average fine_heap [0; 1]%nat "total_visit_marks" = Ok (VFloat (Float false 0)) ∧
    ¬ averages_over fine_heap [0; 1]%nat inspection_state_fields
        (λ k, state_averages out !! k).
Proof.
  assert (Hd : match (process_state_inspection_data (Some fine_payload) fine_heap).1 with
               | Ok (Some out) =>
                   state_averages out !! "total_marks"%string = Some (VFloat (float_lit 1 100))
               | _ => False
               end) by (vm_compute; reflexivity).
  assert (Hraw : average fine_heap [0; 1]%nat "total_visit_marks"
                 = Ok (VFloat (Float false 0))) by (vm_compute; reflexivity).
  destruct (process_state_inspection_data (Some fine_payload) fine_heap)
    as [[[out|]|] h']; simpl in Hd; try contradiction.
  exists out, h'. split; [reflexivity|]. split; [exact Hd|]. split; [exact Hraw|].
  intros H. unfold averages_over, inspection_state_fields in H.
  do 4 apply Forall_cons_1 in H as [_ H]. apply Forall_cons_1 in H as [(v & Hv & Hl) _].
  simpl in Hv, Hl. rewrite Hd in Hl. injection Hl as <-.
  rewrite Hraw in Hv. vm_compute in Hv. discriminate Hv.
Qed.

(** C6, amended: every average field of the six aggregators is the mean,
    rounded to two decimals, of the corresponding field over the collection
    as the normalisation pass left it, that is over the field values already
    rounded to two decimals, where a record without the field counts as 0. *)
Theorem averages_over_normalized_collection d rs h :
  results d = Some rs →
  (∀ out h', process_state_inspection_data (Some d) h = (Ok (Some out), h') →
     averages_over (normalize rs h) rs inspection_state_fields
       (λ k, state_averages out !! k)) ∧
  (∀ out h', process_district_inspection_data (Some d) h = (Ok (Some out), h') →
     averages_over (normalize rs h) rs inspection_district_fields (summary_value out)) ∧
  (∀ out h', process_state_work_data (Some d) h = (Ok (Some out), h') →
     averages_over (normalize rs h) rs work_state_fields
       (λ k, state_averages out !! k)) ∧
  (∀ out h', process_district_work_data (Some d) h = (Ok (Some out), h') →
     averages_over (normalize rs h) rs work_district_fields (summary_value out)) ∧
  (∀ out h', process_state_zero_muster_data (Some d) h = (Ok (Some out), h') →
     averages_over (normalize rs h) rs zero_muster_state_fields
       (λ k, state_averages out !! k)) ∧
  (∀ out h', process_district_zero_muster_data (Some d) h = (Ok (Some out), h') →
     averages_over (normalize rs h) rs zero_muster_district_fields (summary_value out)) ∧
  (∀ field,
     average (normalize rs h) rs field =
     (m ← mean (map (λ l, normalize_value (rec_get (deref h l) field (VInt 0))) rs);
      py_round2 m)).
Proof.
  intros Hrs. repeat split.
  - intros out h' H.
    apply (process_state_inspection_inv d rs) in H as (-> & s & r & _ & _ & Ho & _); [|done].
    apply Ho.
  - intros out h' H.
    apply (process_district_inspection_inv d rs) in H as (-> & s & r & _ & _ & Ho); [|done].
    apply Ho.
  - intros out h' H.
    apply (process_state_work_inv d rs) in H as (-> & r & _ & Ho); [|done]. apply Ho.
  - intros out h' H.
    apply (process_district_work_inv d rs) in H as (-> & r & _ & Ho); [|done]. apply Ho.
  - intros out h' H.
    apply (process_state_zero_muster_inv d rs) in H as (-> & r & _ & Ho); [|done]. apply Ho.
  - intros out h' H.
    apply (process_district_zero_muster_inv d rs) in H as (-> & r & _ & Ho); [|done]. apply Ho.
  - apply average_normalize.
Qed.

Lemma averages_over_normalized_collection_witness :
  results fine_payload = Some [0; 1]%nat ∧
  ∃ out h',
    process_state_inspection_data (Some fine_payload) fine_heap = (Ok (Some out), h') ∧
    averages_over (normalize [0; 1]%nat fine_heap) [0; 1]%nat inspection_state_fields
      (λ k, state_averages out !! k).
Proof.
  split; [reflexivity|].
  pose proof (proj1 (averages_over_normalized_collection fine_payload [0; 1]%nat
                       fine_heap eq_refl)) as Hthm.
  assert (Hd : match (process_state_inspection_data (Some fine_payload) fine_heap).1 with
               | Ok (Some out) => True
               | _ => False
               end) by (vm_compute; exact I).
  destruct (process_state_inspection_data (Some fine_payload) fine_heap)
    as [[[out|]|] h']; simpl in Hd; try contradiction.
  exists out, h'. split; [reflexivity|]. exact (Hthm out h' eq_refl).
Defined.

(* ===================================================================== *)
(** * Properties: the tie-break pass of the inspection pipeline *)
(* ===================================================================== *)

(** The test succeeds exactly on equal marks and strictly more visits. *)
Lemma swap_test_true h a b ma mb va vb :
  rec_getitem (deref h a) "total_visit_marks" = Ok ma →
  rec_getitem (deref h b) "total_visit_marks" = Ok mb →
  py_eqb ma mb = true →
  total_visits h a = Ok va →
  total_visits h b = Ok vb →
  swap_test h a b = sumv_lt va vb.
Proof.
  intros Ha Hb He Hva Hvb. unfold swap_test.
  rewrite Ha, Hb. simpl. rewrite He, Hva, Hvb. reflexivity.
Qed.

Lemma swap_test_untied h a b ma mb :
  rec_getitem (deref h a) "total_visit_marks" = Ok ma →
  rec_getitem (deref h b) "total_visit_marks" = Ok mb →
  py_eqb ma mb = false →
  swap_test h a b = Ok false.
Proof.
  intros Ha Hb He. unfold swap_test. rewrite Ha, Hb. simpl. by rewrite He.
Qed.

(** The pair met at position [length pre]: the winner of the test stays at
    that position for good, the other record ends up after it. *)
Lemma tie_loop_pair h pre a b rest r t :
  swap_test h a b = Ok t →
  tie_loop h (length pre) (length (b :: rest)) (pre ++ a :: b :: rest) = Ok r →
  ∃ r', r = pre ++ (if t : bool then b else a) :: r' ∧
        (if t : bool then a else b) ∈ r'.
Proof.
  intros Ht H. rewrite tie_loop_bubble in H.
  apply fmap_ok_inv in H as (r0 & H & ->). simpl in H. rewrite Ht in H. simpl in H.
  destruct t; apply fmap_ok_inv in H as (r' & Hr & ->); exists r';
    (split; [reflexivity|]); apply bubble_from_perm in Hr; rewrite Hr; left.
Qed.

Lemma swap_test_true_iff h a b :
  swap_test h a b = Ok true ↔
  ∃ ma mb va vb,
    rec_getitem (deref h a) "total_visit_marks" = Ok ma ∧
    rec_getitem (deref h b) "total_visit_marks" = Ok mb ∧
    py_eqb ma mb = true ∧
    total_visits h a = Ok va ∧
    total_visits h b = Ok vb ∧
    sumv_lt va vb = Ok true.
Proof.
  split.
  - intros H. unfold swap_test in H.
    apply bind_ok_inv in H as (ma & Ha & H).
    apply bind_ok_inv in H as (mb & Hb & H).
    destruct (py_eqb ma mb) eqn:He; [|discriminate].
    apply bind_ok_inv in H as (va & Hva & H).
    apply bind_ok_inv in H as (vb & Hvb & H).
    by exists ma, mb, va, vb.
  - intros (ma & mb & va & vb & Ha & Hb & He & Hva & Hvb & Hlt).
    by rewrite (swap_test_true h a b ma mb va vb).
Qed.

(** C1: in the inspection pipeline the sorted sequence goes through exactly
    one adjacent-pair pass.  The index loop is a single bubble pass; at each
    position the two records met there are exchanged exactly when their
    marks are equal and the second has strictly more visits (sum of the two
    visit counts); the winner of a pair keeps its position for good and the
    other record ends up after it.  It is not a sort: three tied records
    with 1, 2 and 3 visits come out in the order 2, 3, 1. *)
Theorem tie_break_is_one_adjacent_pass :
  (∀ h s, tie_break_pass h s = bubble_pass h s) ∧
  (∀ h a b,
     swap_test h a b = Ok true ↔
     ∃ ma mb va vb,
       rec_getitem (deref h a) "total_visit_marks" = Ok ma ∧
       rec_getitem (deref h b) "total_visit_marks" = Ok mb ∧
       py_eqb ma mb = true ∧
       total_visits h a = Ok va ∧
       total_visits h b = Ok vb ∧
       sumv_lt va vb = Ok true) ∧
  (∀ d rs h out h',
     results d = Some rs →
     process_state_inspection_data (Some d) h = (Ok (Some out), h') →
     ∃ s ranked,
       sorted rs (inspection_key h') true = Ok s ∧
       tie_break_pass h' s = Ok ranked ∧
       assign_ranks h' ranked = Ok (district_ranks out) ∧
       getitem ranked 0 = Ok (top_district out)) ∧
  (∀ d rs h out h',
     results d = Some rs →
     process_district_inspection_data (Some d) h = (Ok (Some out), h') →
     ∃ s,
       sorted rs (inspection_key h') true = Ok s ∧
       tie_break_pass h' s = Ok (blocks out)) ∧
  (∀ h pre a b rest r t,
     swap_test h a b = Ok t →
     tie_loop h (length pre) (length (b :: rest)) (pre ++ a :: b :: rest) = Ok r →
     ∃ r', r = pre ++ (if t : bool then b else a) :: r' ∧
           (if t : bool then a else b) ∈ r') ∧
  (total_visits run_heap 0%nat = Ok (SInt 1) ∧
   total_visits run_heap 1%nat = Ok (SInt 2) ∧
   total_visits run_heap 2%nat = Ok (SInt 3) ∧
   sorted [0; 1; 2]%nat (inspection_key run_heap) true = Ok [0; 1; 2]%nat ∧
   tie_break_pass run_heap [0; 1; 2]%nat = Ok [1; 2; 0]%nat ∧
   match (process_district_inspection_data (Some run_payload) run_heap).1 with
   | Ok (Some out) => blocks out = [1; 2; 0]%nat
   | _ => False
   end).
Proof.
  split; [exact tie_break_pass_bubble|].
  split; [exact swap_test_true_iff|].
  split; [|split; [|split]].
  - intros d rs h out h' Hrs H.
    apply (process_state_inspection_inv d rs) in H
      as (_ & s & ranked & Hs & Ht & (Hr & Htop & _) & _); [|done].
    by exists s, ranked.
  - intros d rs h out h' Hrs H.
    apply (process_district_inspection_inv d rs) in H
      as (_ & s & ranked & Hs & Ht & (Hb & _)); [|done].
    exists s. by rewrite Hb.
  - exact tie_loop_pair.
  - split; [vm_compute; reflexivity|].
    split; [vm_compute; reflexivity|].
    split; [vm_compute; reflexivity|].
    split; [vm_compute; reflexivity|].
    split; [vm_compute; reflexivity|].
    vm_compute; reflexivity.
Qed.

Lemma tie_break_is_one_adjacent_pass_witness :
  swap_test run_heap 0%nat 1%nat = Ok true ∧
  tie_loop run_heap 0 2 [0; 1; 2]%nat = Ok [1; 2; 0]%nat ∧
  ∃ r', [1; 2; 0]%nat = 1%nat :: r' ∧ 0%nat ∈ r'.
Proof.
  assert (Ht : swap_test run_heap 0%nat 1%nat = Ok true) by (vm_compute; reflexivity).
  assert (Hl : tie_loop run_heap (length (@nil nat)) (length [1; 2]%nat)
                 ([] ++ [0; 1; 2]%nat) = Ok [1; 2; 0]%nat) by (vm_compute; reflexivity).
  split; [exact Ht|]. split; [exact Hl|].
  exact (proj1 (proj2 (proj2 (proj2 (proj2 tie_break_is_one_adjacent_pass))))
           run_heap [] 0%nat 1%nat [2%nat] [1; 2; 0]%nat true Ht Hl).
Defined.

(* ===================================================================== *)
(** * Properties: missing fields in the inspection pipeline *)
(* ===================================================================== *)

Lemma py_lt_numbers a b :
  is_number a = true → is_number b = true → ∃ t, py_lt a b = Ok t.
Proof. destruct a, b; simpl; try discriminate; intros _ _; eauto. Qed.

Lemma insert_by_numeric {A} (key : A → value) x l :
  is_number (key x) = true →
  Forall (λ y, is_number (key y) = true) l →
  ∃ l', insert_by key x l = Ok l'.
Proof.
  intros Hx Hl. induction Hl as [|y l Hy Hl IH]; simpl; [eauto|].
  destruct (py_lt_numbers _ _ Hx Hy) as ([] & ->); simpl; [eauto|].
  destruct IH as (l' & ->). simpl. eauto.
Qed.

Lemma sort_fold_numeric {A} (key : A → value) l : ∀ acc,
  Forall (λ y, is_number (key y) = true) acc →
  Forall (λ y, is_number (key y) = true) l →
  ∃ l', foldl (λ acc x, s ← acc; insert_by key x s) (Ok acc) l = Ok l'.
Proof.
  induction l as [|x l IH]; intros acc Hacc Hl; simpl; [eauto|].
  apply Forall_cons_1 in Hl as [Hx Hl].
  destruct (insert_by_numeric key x acc Hx Hacc) as (acc' & E). rewrite E.
  apply IH; [|done].
  rewrite (insert_by_perm key x acc acc' E). by constructor.
Qed.

(** [sorted] does not raise when all keys are numbers. *)
Lemma sorted_numeric {A} (l : list A) key reverse :
  Forall (λ y, is_number (key y) = true) l →
  ∃ l', sorted l key reverse = Ok l'.
Proof.
  intros Hl. unfold sorted, sort_by. destruct reverse.
  - destruct (sort_fold_numeric key (rev l) []) as (l' & E); [constructor| |].
    + by rewrite <- Permutation_rev.
    + rewrite E. simpl. eauto.
  - apply sort_fold_numeric; [constructor|done].
Qed.

Lemma is_number_normalize v : is_number (normalize_value v) = is_number v.
Proof. by destruct v. Qed.

Lemma marks_sortable_normalize rs h l :
  l ∈ rs → marks_sortable h l → marks_sortable (normalize rs h) l.
Proof.
  intros Hl H. unfold marks_sortable, inspection_key in *.
  by rewrite deref_normalize, rec_get_normalize, is_number_normalize.
Qed.

Lemma counts_visits_normalize rs h l :
  l ∈ rs → counts_visits h l → counts_visits (normalize rs h) l.
Proof.
  intros Hl (x & y & Hx & Hy). exists x, y.
  rewrite deref_normalize, !normalize_record_lookup, Hx, Hy by done. done.
Qed.

Lemma lacks_marks_normalize rs h l :
  l ∈ rs → lacks_marks h l → lacks_marks (normalize rs h) l.
Proof.
  intros Hl H. unfold lacks_marks in *.
  by rewrite deref_normalize, normalize_record_lookup, H.
Qed.

Lemma swap_test_lacking h a b :
  counts_visits h a → counts_visits h b →
  (lacks_marks h a ∨ lacks_marks h b → swap_test h a b = Raise KeyError) ∧
  (¬ lacks_marks h a → ¬ lacks_marks h b → ∃ t, swap_test h a b = Ok t).
Proof.
  intros (xa & ya & Hxa & Hya) (xb & yb & Hxb & Hyb).
  unfold swap_test, total_visits, rec_getitem, lacks_marks.
  rewrite Hxa, Hya, Hxb, Hyb. simpl.
  destruct (deref h a !! "total_visit_marks") as [ma|];
    destruct (deref h b !! "total_visit_marks") as [mb|]; simpl; split;
    try (intros [?|?]; done); try done; intros _ _.
  destruct (py_eqb ma mb); eauto.
Qed.

(** A pass over two records or more raises [KeyError] as soon as one of
    them has no marks: every record is a member of some pair. *)
Lemma bubble_from_lacking h rest : ∀ a,
  rest ≠ [] →
  Forall (counts_visits h) (a :: rest) →
  Exists (lacks_marks h) (a :: rest) →
  bubble_from h a rest = Raise KeyError.
Proof.
  induction rest as [|b rest IH]; intros a Hne Hv Hex; [done|].
  apply Forall_cons_1 in Hv as [Ha Hv]. pose proof Hv as Hv'.
  apply Forall_cons_1 in Hv' as [Hb Hrest].
  destruct (swap_test_lacking h a b Ha Hb) as [Hraise Hok].
  simpl.
  destruct (deref h a !! "total_visit_marks") as [ma|] eqn:Ea;
    [|rewrite Hraise; [done|by left]].
  destruct (deref h b !! "total_visit_marks") as [mb|] eqn:Eb;
    [|rewrite Hraise; [done|by right]].
  destruct Hok as (t & ->); [unfold lacks_marks; congruence..|]. simpl.
  assert (Hex' : Exists (lacks_marks h) rest).
  { apply Exists_cons in Hex as [H|H]; [unfold lacks_marks in H; congruence|].
    apply Exists_cons in H as [H|H]; [unfold lacks_marks in H; congruence|done]. }
  assert (Hne' : rest ≠ []) by (intros ->; by apply Exists_nil in Hex').
  destruct t.
  - rewrite (IH a); [done|done|by constructor|by apply Exists_cons_tl].
  - rewrite (IH b); [done|done|by constructor|by apply Exists_cons_tl].
Qed.

Lemma tie_break_pass_lacking h s :
  (2 ≤ length s)%nat →
  Forall (counts_visits h) s →
  Exists (lacks_marks h) s →
  tie_break_pass h s = Raise KeyError.
Proof.
  intros Hlen Hv Hex. rewrite tie_break_pass_bubble.
  destruct s as [|a [|b rest]]; simpl in Hlen; [lia..|].
  by apply bubble_from_lacking.
Qed.

Lemma inspection_pass_raises rs h :
  (2 ≤ length rs)%nat →
  Forall (marks_sortable h) rs →
  Forall (counts_visits h) rs →
  Exists (lacks_marks h) rs →
  ∃ s, sorted rs (inspection_key (normalize rs h)) true = Ok s ∧
       tie_break_pass (normalize rs h) s = Raise KeyError.
Proof.
  intros Hlen Hm Hv Hex.
  destruct (sorted_numeric rs (inspection_key (normalize rs h)) true) as (s & Hs).
  { apply Forall_forall. intros l Hl.
    apply marks_sortable_normalize; [done|].
    by eapply (proj1 (Forall_forall _ _) Hm). }
  exists s. split; [done|].
  pose proof (sorted_perm _ _ _ _ Hs) as Hp.
  apply tie_break_pass_lacking.
  - by rewrite Hp.
  - rewrite Hp. apply Forall_forall. intros l Hl.
    apply counts_visits_normalize; [done|].
    by eapply (proj1 (Forall_forall _ _) Hv).
  - rewrite Hp. apply Exists_exists in Hex as (l & Hl & Hlack).
    apply Exists_exists. exists l. split; [done|].
    by apply lacks_marks_normalize.
Qed.

(** C9: the sort of the inspection pipeline reads the marks with a default
    of 0, but the tie-break pass subscripts the record: with two records or
    more, every record is met by the pass, and a record without
    ['total_visit_marks'] makes both inspection aggregators raise
    [KeyError] although the sort succeeded; a record without a visit count
    does so when it ties with its neighbour. *)
Theorem tie_break_subscripts_raise :
  (∀ h l, lacks_marks h l → inspection_key h l = VInt 0) ∧
  (∀ d rs h,
     results d = Some rs →
     (2 ≤ length rs)%nat →
     Forall (marks_sortable h) rs →
     Forall (counts_visits h) rs →
     Exists (lacks_marks h) rs →
     (∃ s, sorted rs (inspection_key (normalize rs h)) true = Ok s) ∧
     (process_state_inspection_data (Some d) h).1 = Raise KeyError ∧
     (process_district_inspection_data (Some d) h).1 = Raise KeyError) ∧
  (∀ h a b ma mb,
     rec_getitem (deref h a) "total_visit_marks" = Ok ma →
     rec_getitem (deref h b) "total_visit_marks" = Ok mb →
     py_eqb ma mb = true →
     deref h a !! "dpc_ws_visited" = None ∨ deref h a !! "adpc_ws_visited" = None →
     swap_test h a b = Raise KeyError) ∧
  (sorted [0; 1]%nat (inspection_key (normalize [0; 1]%nat partial_heap)) true
     = Ok [0; 1]%nat ∧
   (process_state_inspection_data (Some partial_payload) partial_heap).1
     = Raise KeyError).
Proof.
  split; [|split; [|split]].
  - intros h l H. unfold inspection_key, rec_get. unfold lacks_marks in H. by rewrite H.
  - intros d rs h Hrs Hlen Hm Hv Hex.
    destruct (inspection_pass_raises rs h Hlen Hm Hv Hex) as (s & Hs & Ht).
    split; [by exists s|].
    unfold process_state_inspection_data, process_district_inspection_data.
    rewrite (payload_with_results_truthy d rs Hrs), Hrs. cbn [fst].
    rewrite Hs. cbn [mbind result_bind]. rewrite Ht. done.
  - intros h a b ma mb Ha Hb He Hlack. unfold swap_test, total_visits.
    rewrite Ha, Hb. cbn [mbind result_bind]. rewrite He.
    unfold rec_getitem.
    destruct Hlack as [->| ->]; [done|].
    by destruct (deref h a !! "dpc_ws_visited").
  - split; vm_compute; reflexivity.
Qed.

Lemma tie_break_subscripts_raise_witness :
  results partial_payload = Some [0; 1]%nat ∧
  (2 ≤ length [0; 1]%nat)%nat ∧
  Forall (marks_sortable partial_heap) [0; 1]%nat ∧
  Forall (counts_visits partial_heap) [0; 1]%nat ∧
  Exists (lacks_marks partial_heap) [0; 1]%nat ∧
  (process_state_inspection_data (Some partial_payload) partial_heap).1
    = Raise KeyError.
Proof.
  assert (Hm : Forall (marks_sortable partial_heap) [0; 1]%nat).
  { repeat (apply Forall_cons; split; [vm_compute; reflexivity|]). apply Forall_nil_2. }
  assert (Hv : Forall (counts_visits partial_heap) [0; 1]%nat).
  { apply Forall_cons; split;
      [exists 3, 2; split; vm_compute; reflexivity|].
    apply Forall_cons; split;
      [exists 1, 1; split; vm_compute; reflexivity|].
    apply Forall_nil_2. }
  assert (Hex : Exists (lacks_marks partial_heap) [0; 1]%nat).
  { apply Exists_cons_tl, Exists_cons_hd. vm_compute. reflexivity. }
  assert (Hlen : (2 ≤ length [0; 1]%nat)%nat) by (simpl; lia).
  split; [reflexivity|]. split; [exact Hlen|]. split; [exact Hm|].
  split; [exact Hv|]. split; [exact Hex|].
  exact (proj1 (proj2 (proj1 (proj2 tie_break_subscripts_raise)
           partial_payload [0; 1]%nat partial_heap eq_refl Hlen Hm Hv Hex))).
Defined.

(* ===================================================================== *)
(** * Properties: rank assignment *)
(* ===================================================================== *)

Lemma py_eqb_key_class a b : py_eqb a b = true ↔ key_class a = key_class b.
Proof.
  destruct a, b; simpl; try (split; [discriminate|intros [=]]).
  all: try (rewrite Z.eqb_eq; split; [by intros ->|by intros [=]]).
  rewrite String.eqb_eq. split; [by intros ->|by intros [=]].
Qed.




Lemma zip_ranks_fst {A} (names : list A) i n :
  length names = n → (zip names (Z.of_nat <$> seq i n)).*1 = names.
Proof. intros H. apply fst_zip. rewrite length_fmap, length_seq. lia. Qed.






(* ===================================================================== *)
(** * Properties: the order of keys and the sortedness of [sorted] *)
(* ===================================================================== *)

Lemma ascii_compare_lt_trans a b c :
  Ascii.compare a b = Lt → Ascii.compare b c = Lt → Ascii.compare a c = Lt.
Proof.
  unfold Ascii.compare. rewrite !N.compare_lt_iff. apply N.lt_trans.
Qed.

Lemma string_compare_lt_trans a : ∀ b c,
  String.compare a b = Lt → String.compare b c = Lt → String.compare a c = Lt.
Proof.
  induction a as [|x a IH]; intros [|y b] [|z c]; simpl; try done.
  destruct (Ascii.compare x y) eqn:Exy; try done;
    destruct (Ascii.compare y z) eqn:Eyz; try done.
  - apply Ascii.compare_eq_iff in Exy as ->. rewrite Eyz. apply IH.
  - apply Ascii.compare_eq_iff in Exy as ->. by rewrite Eyz.
  - apply Ascii.compare_eq_iff in Eyz as <-. by rewrite Exy.
  - by rewrite (ascii_compare_lt_trans x y z).
Qed.

Lemma string_ltb_irrefl s : String.ltb s s = false.
Proof.
  unfold String.ltb. pose proof (String.compare_antisym s s) as H.
  by destruct (String.compare s s).
Qed.

Lemma string_ltb_asym s t : String.ltb s t = true → String.ltb t s = false.
Proof.
  unfold String.ltb. rewrite (String.compare_antisym s t).
  by destruct (String.compare t s).
Qed.

Lemma string_ltb_trans a b c :
  String.ltb a b = true → String.ltb b c = true → String.ltb a c = true.
Proof.
  unfold String.ltb. intros Hab Hbc.
  rewrite (string_compare_lt_trans a b c); [done| |].
  - by destruct (String.compare a b).
  - by destruct (String.compare b c).
Qed.

Lemma py_lt_irrefl v : py_lt v v = Ok false.
Proof.
  destruct v; simpl; [by rewrite Z.ltb_irrefl..|by rewrite string_ltb_irrefl].
Qed.

Lemma py_lt_asym x y : py_lt x y = Ok true → py_lt y x = Ok false.
Proof.
  destruct x, y; simpl; try discriminate; intros [= H]; f_equal;
    try (apply Z.ltb_lt in H; apply Z.ltb_ge; lia).
  by apply string_ltb_asym.
Qed.

(** What is not below [y] is not below anything below [y]. *)
Lemma py_lt_not_below x y z :
  py_lt x y = Ok true → py_lt z y = Ok false → py_lt z x = Ok false.
Proof.
  destruct x, y, z; simpl; try discriminate; intros [= H1] [= H2]; f_equal;
    try (apply Z.ltb_lt in H1; apply Z.ltb_ge in H2; apply Z.ltb_ge; lia).
  destruct (String.ltb s1 s) eqn:E; [|done].
  by rewrite (string_ltb_trans s1 s s0) in H2.
Qed.

Lemma py_eqb_sym a b : py_eqb a b = py_eqb b a.
Proof.
  destruct a, b; simpl; try done; try apply Z.eqb_sym. apply String.eqb_sym.
Qed.

(** Equal keys compare alike. *)
Lemma py_lt_eqb_l a b x : py_eqb a b = true → py_lt a x = py_lt b x.
Proof.
  destruct a, b; simpl; try discriminate; intros H;
    try (apply Z.eqb_eq in H; destruct x; simpl; by rewrite ?H).
  apply String.eqb_eq in H as ->. done.
Qed.

Lemma insert_by_sorted {A} (key : A → value) x l : ∀ l',
  StronglySorted (key_le key) l →
  insert_by key x l = Ok l' →
  StronglySorted (key_le key) l'.
Proof.
  induction l as [|y l IH]; intros l' Hs H; simpl in H.
  - injection H as <-. repeat constructor.
  - apply StronglySorted_inv in Hs as [Hs Hy].
    apply bind_ok_inv in H as ([] & Hlt & H).
    + injection H as <-. constructor; [by constructor|].
      constructor; [by apply py_lt_asym|].
      eapply Forall_impl; [exact Hy|]. intros z Hz.
      unfold key_le in *. by eapply py_lt_not_below.
    + apply fmap_ok_inv in H as (r & Hr & ->).
      constructor; [by apply IH|].
      rewrite (insert_by_perm key x l r Hr). by constructor.
Qed.

Lemma sort_fold_sorted {A} (key : A → value) l : ∀ acc l',
  StronglySorted (key_le key) acc →
  foldl (λ acc x, s ← acc; insert_by key x s) (Ok acc) l = Ok l' →
  StronglySorted (key_le key) l'.
Proof.
  induction l as [|x l IH]; intros acc l' Hacc H; simpl in H.
  - by injection H as <-.
  - destruct (insert_by key x acc) as [acc'|e] eqn:E; simpl in H.
    + eapply IH; [|exact H]. by eapply insert_by_sorted.
    + by rewrite sort_fold_raise in H.
Qed.

Lemma sort_by_sorted {A} (key : A → value) l l' :
  sort_by key l = Ok l' → StronglySorted (key_le key) l'.
Proof. apply sort_fold_sorted. constructor. Qed.





Lemma getitem_head {A} (l : list A) x : getitem l 0 = Ok x → ∃ r, l = x :: r.
Proof. destruct l as [|y r]; [discriminate|]. intros [= ->]. by exists r. Qed.





(* ===================================================================== *)
(** * The float model on known values *)
(* ===================================================================== *)

(** 0.1 is 3602879701896397 / 2^55 and 0.01 is 5764607523034235 / 2^59. *)
Example float_lit_tenth :
  float_lit 1 10 = Float false (Z.to_N (3602879701896397 * 2 ^ (1074 - 55))).
Proof. vm_compute. reflexivity. Qed.

Example float_lit_hundredth :
  float_lit 1 100 = Float false (Z.to_N (5764607523034235 * 2 ^ (1074 - 59))).
Proof. vm_compute. reflexivity. Qed.

Example float_lit_representable :
  representable (Z.of_N (fmag (float_lit 533 100))) = true.
Proof. vm_compute. reflexivity. Qed.

(** [round(2.675, 2) == 2.67]: the float 2.675 lies below the decimal. *)
Example round2_below_half : round2 (float_lit 2675 1000) = float_lit 267 100.
Proof. vm_compute. reflexivity. Qed.

(** [round(0.125, 2) == 0.12]: an exact tie goes to the even neighbour. *)
Example round2_tie_to_even : round2 (float_lit 125 1000) = float_lit 12 100.
Proof. vm_compute. reflexivity. Qed.

(** [round(0.005, 2) == 0.01] and [round(-0.001, 2) == -0.0]. *)
Example round2_above_half : round2 (float_lit 5 1000) = float_lit 1 100.
Proof. vm_compute. reflexivity. Qed.

Example round2_negative_zero : round2 (float_lit (-1) 1000) = Float true 0.
Proof. vm_compute. reflexivity. Qed.

(** [statistics.mean([1, 2]) == 1.5], [mean([2, 4]) == 3] (an int) and
    [mean([6.0, 6.0, 4.0])] rounds to 5.33. *)
Example mean_of_ints :
  mean [VInt 1; VInt 2] = Ok (VFloat (float_lit 15 10)) ∧
  mean [VInt 2; VInt 4] = Ok (VInt 3) ∧
  mean [] = Raise StatisticsError ∧
  mean [VInt 1; VStr "x"] = Raise TypeError.
Proof.
  split; [vm_compute; reflexivity|]. split; [vm_compute; reflexivity|].
  split; vm_compute; reflexivity.
Qed.

(** The scenario of the specification: A, B and C are ranked 1, 2, 3, the
    top is A, the bottom is C, and the average of the marks is 5.33. *)
Example scenario_outcome :
  match (process_state_inspection_data (Some scenario_payload) scenario_heap).1 with
  | Ok (Some out) =>
      district_ranks out = [(VStr "A", 1); (VStr "B", 2); (VStr "C", 3)] ∧
      top_district out = 0%nat ∧
      bottom_district out = 2%nat ∧
      state_averages out !! "total_marks"%string = Some (VFloat (float_lit 533 100))
  | _ => False
  end.
Proof.
  vm_compute. split; [reflexivity|]. split; [reflexivity|]. split; reflexivity.
Qed.

(* ===================================================================== *)
(** * Further properties: empty collections, absent fields, fixed points *)
(* ===================================================================== *)

(** The district aggregators of the inspection and of the zero-muster
    pipeline take the means before they reach their
    [sorted_blocks[0] if sorted_blocks else None] guards: on an empty
    collection they raise [StatisticsError], the guards are never the ones
    to answer. *)
Theorem empty_district_collection_raises d h :
  results d = Some [] →
  process_district_inspection_data (Some d) h = (Raise StatisticsError, h) ∧
  process_district_zero_muster_data (Some d) h = (Raise StatisticsError, h).
Proof.
  intros H.
  unfold process_district_inspection_data, process_district_zero_muster_data.
  rewrite (payload_with_results_truthy d [] H), H. split; reflexivity.
Qed.

Lemma empty_district_collection_raises_witness :
  results (Payload (Some []) ∅) = Some [] ∧
  process_district_inspection_data (Some (Payload (Some []) ∅)) scenario_heap
    = (Raise StatisticsError, scenario_heap).
Proof.
  split; [reflexivity|].
  exact (proj1 (empty_district_collection_raises (Payload (Some []) ∅)
                  scenario_heap eq_refl)).
Defined.

Lemma exact_sum_zeros n : exact_sum (replicate n (VInt 0)) = Ok 0.
Proof. induction n as [|n IH]; [done|]. simpl. by rewrite IH. Qed.

Lemma forallb_is_int_zeros n : forallb is_int (replicate n (VInt 0)) = true.
Proof. induction n as [|n IH]; [done|]. exact IH. Qed.

Lemma map_absent_field (h : gmap nat (gmap string value)) rs field :
  Forall (λ l, deref h l !! field = None) rs →
  map (λ d, rec_get (deref h d) field (VInt 0)) rs = replicate (length rs) (VInt 0).
Proof.
  induction 1 as [|l rs Hl _ IH]; [done|]. simpl.
  unfold rec_get at 1. rewrite Hl. simpl. by rewrite IH.
Qed.

Lemma exact_sum_no_key_error vs : exact_sum vs ≠ Raise KeyError ∧ exact_sum vs ≠ Raise IndexError.
Proof.
  induction vs as [|v vs [IH1 IH2]]; [done|]. simpl.
  destruct (value_scaled v); [|done].
  destruct (exact_sum vs) as [s|[]]; done.
Qed.

(** A record without the field counts as 0 in an average and never faults
    it: an average is never a [KeyError] or an [IndexError], and a field
    that no record of a non-empty collection carries averages to the
    int 0. *)
Theorem absent_field_averages_to_zero (h : gmap nat (gmap string value)) rs field :
  (average h rs field ≠ Raise KeyError ∧ average h rs field ≠ Raise IndexError) ∧
  (rs ≠ [] →
   Forall (λ l, deref h l !! field = None) rs →
   average h rs field = Ok (VInt 0)).
Proof.
  split.
  - unfold average, mean.
    destruct (exact_sum_no_key_error
                (map (λ d, rec_get (deref h d) field (VInt 0)) rs)) as [H1 H2].
    destruct (exact_sum _) as [s|e]; [|by destruct e]. cbn [mbind result_bind].
    destruct (_ <? 1); [done|].
    destruct (_ && _); [done|].
    unfold float_of_ratio. destruct (_ <? overflow_bound); done.
  - intros Hne Hf. unfold average, mean.
    rewrite (map_absent_field h rs field Hf), exact_sum_zeros.
    cbn [mbind result_bind]. rewrite length_replicate, forallb_is_int_zeros.
    assert (Hn : (Z.of_nat (length rs) <? 1) = false).
    { apply Z.ltb_ge. destruct rs; [done|]. simpl. lia. }
    rewrite Hn. rewrite Z.mod_0_l, Z.div_0_l.
    + reflexivity.
    + pose proof unit_pos. apply Z.ltb_ge in Hn. nia.
    + pose proof unit_pos. apply Z.ltb_ge in Hn. nia.
Qed.

Lemma absent_field_averages_to_zero_witness :
  [0; 1; 2]%nat ≠ [] ∧
  Forall (λ l, deref scenario_heap l !! "dpc_marks"%string = None) [0; 1; 2]%nat ∧
  average scenario_heap [0; 1; 2]%nat "dpc_marks" = Ok (VInt 0).
Proof.
  assert (Hf : Forall (λ l, deref scenario_heap l !! "dpc_marks"%string = None)
                 [0; 1; 2]%nat).
  { repeat (apply Forall_cons; split; [vm_compute; reflexivity|]). apply Forall_nil_2. }
  split; [discriminate|]. split; [exact Hf|].
  apply (proj2 (absent_field_averages_to_zero scenario_heap [0; 1; 2]%nat
                  "dpc_marks")); [discriminate|exact Hf].
Defined.

(** A float that is the nearest double to a number with two decimals is
    left as it is by [round(x, 2)], hence by the normalisation pass:
    data already at two decimals go through unchanged. *)
Theorem two_decimal_floats_are_fixed p :
  round2 (float_lit p 100) = float_lit p 100 ∧
  normalize_value (VFloat (float_lit p 100)) = VFloat (float_lit p 100).
Proof.
  assert (E : round2 (float_lit p 100) = float_lit p 100).
  { unfold round2, float_lit. cbn [fneg fmag].
    pose proof (round53_nonneg (Z.abs p * unit) 100 ltac:(lia)
                  ltac:(pose proof unit_pos; nia)) as Hy.
    rewrite Z2N.id by exact Hy. do 2 f_equal.
    apply (round2_fix (Z.abs p)). lia. }
  split; [exact E|]. simpl. by rewrite E.
Qed.

(* ===================================================================== *)
(** * Further properties: the ranked sequence is sorted *)
(* ===================================================================== *)

Lemma StronglySorted_snoc {A} (R : A → A → Prop) l x :
  StronglySorted R l → Forall (λ y, R y x) l → StronglySorted R (l ++ [x]).
Proof.
  induction 1 as [|y l Hs IH Hy]; intros Hx; simpl.
  - repeat constructor.
  - apply Forall_cons_1 in Hx as [Hyx Hx]. constructor; [by apply IH|].
    apply Forall_app. split; [done|]. by constructor.
Qed.

Lemma StronglySorted_rev {A} (R : A → A → Prop) l :
  StronglySorted R l → StronglySorted (flip R) (rev l).
Proof.
  induction 1 as [|x l Hs IH Hx]; simpl; [constructor|].
  apply StronglySorted_snoc; [done|].
  apply Forall_forall. intros y Hy. unfold flip.
  rewrite Forall_forall in Hx. apply Hx.
  by rewrite list_elem_of_In, in_rev, <- list_elem_of_In.
Qed.

Lemma StronglySorted_last {A} (R : A → A → Prop) l x :
  StronglySorted R (l ++ [x]) → Forall (λ y, R y x) l.
Proof.
  induction l as [|y l IH]; intros H; [constructor|].
  simpl in H. apply StronglySorted_inv in H as [Hs Hy].
  constructor; [|by apply IH].
  apply Forall_app in Hy as [_ Hx]. by apply Forall_inv in Hx.
Qed.

(** [sorted] with [reverse] returns a sequence in descending order of keys,
    without it one in ascending order. *)
Lemma sorted_desc_sorted {A} (l : list A) key s :
  sorted l key true = Ok s → StronglySorted (key_ge key) s.
Proof.
  unfold sorted. intros H. apply fmap_ok_inv in H as (s0 & Hs0 & ->).
  apply (sort_by_sorted key) in Hs0. by apply StronglySorted_rev in Hs0.
Qed.

Lemma sorted_asc_sorted {A} (l : list A) key s :
  sorted l key false = Ok s → StronglySorted (key_le key) s.
Proof. unfold sorted. apply sort_by_sorted. Qed.

Lemma swap_test_keys h a b :
  swap_test h a b = Ok true →
  py_eqb (inspection_key h a) (inspection_key h b) = true.
Proof.
  intros Ht. apply swap_test_true_iff in Ht as (ma & mb & _ & _ & Ha & Hb & He & _).
  unfold inspection_key, rec_get. unfold rec_getitem in Ha, Hb.
  destruct (deref h a !! "total_visit_marks"); [|done].
  destruct (deref h b !! "total_visit_marks"); [|done].
  injection Ha as ->. injection Hb as ->. done.
Qed.

(** The pass exchanges records of equal marks only: it keeps a sequence in
    descending order of marks in descending order. *)
Lemma bubble_from_sorted h rest : ∀ a r,
  StronglySorted (key_ge (inspection_key h)) (a :: rest) →
  bubble_from h a rest = Ok r →
  StronglySorted (key_ge (inspection_key h)) r.
Proof.
  induction rest as [|b rest IH]; intros a r Hs H; simpl in H.
  - by injection H as <-.
  - apply StronglySorted_inv in Hs as [Hs Ha].
    pose proof Hs as Hs'. apply StronglySorted_inv in Hs' as [Hrest Hb].
    apply Forall_cons_1 in Ha as [Hab Ha].
    apply bind_ok_inv in H as ([] & Ht & H);
      apply fmap_ok_inv in H as (r' & Hr & ->).
    + pose proof (swap_test_keys h a b Ht) as He.
      constructor.
      * apply (IH a); [by constructor|done].
      * rewrite (bubble_from_perm h rest a r' Hr). constructor; [|done].
        unfold key_ge. rewrite py_eqb_sym in He.
        rewrite (py_lt_eqb_l _ _ _ He). apply py_lt_irrefl.
    + constructor.
      * by apply (IH b).
      * rewrite (bubble_from_perm h rest b r' Hr). by constructor.
Qed.

Lemma tie_break_pass_sorted h s r :
  StronglySorted (key_ge (inspection_key h)) s →
  tie_break_pass h s = Ok r →
  StronglySorted (key_ge (inspection_key h)) r.
Proof.
  rewrite tie_break_pass_bubble. destruct s as [|a rest]; simpl.
  - intros _ [= <-]. constructor.
  - apply bubble_from_sorted.
Qed.



Lemma getlast_snoc {A} (l : list A) x : getlast l = Ok x → ∃ pre, l = pre ++ [x].
Proof.
  destruct l as [|y l] using rev_ind; [discriminate|]. clear IHl.
  unfold getlast. rewrite length_app. simpl.
  replace (length l + 1 - 1)%nat with (length l) by lia.
  rewrite getitem_middle. intros [= ->]. by exists l.
Qed.

Lemma sorted_last_extremum {A} (R : A → A → Prop) ranked rs x :
  StronglySorted R ranked → ranked ≡ₚ rs → getlast ranked = Ok x → R x x →
  ∀ l, l ∈ rs → R l x.
Proof.
  intros Hs Hp Hl Hx l Hin. apply getlast_snoc in Hl as (pre & ->).
  apply StronglySorted_last in Hs. rewrite <- Hp in Hin.
  apply elem_of_app in Hin as [Hin|Hin].
  - rewrite Forall_forall in Hs. by apply Hs.
  - apply list_elem_of_singleton in Hin as ->. done.
Qed.

(** The bottom district of a state aggregator holds the opposite extremum:
    the minimum of the marks or totals in the two descending pipelines, the
    maximum of the zero-attendance percentage in the zero-muster one. *)
Theorem bottom_district_holds_extremum d rs h out h' :
  results d = Some rs →
  (process_state_inspection_data (Some d) h = (Ok (Some out), h') →
   holds_minimum (inspection_key h') (bottom_district out) rs) ∧
  (process_state_work_data (Some d) h = (Ok (Some out), h') →
   holds_minimum (work_key h') (bottom_district out) rs) ∧
  (process_state_zero_muster_data (Some d) h = (Ok (Some out), h') →
   holds_maximum (zero_muster_key h') (bottom_district out) rs).
Proof.
  intros Hrs. split; [|split]; intros H.
  - apply (process_state_inspection_inv d rs) in H
      as (-> & s & ranked & Hs & Ht & (_ & _ & Hb & _) & _); [|done].
    intros l Hl.
    eapply (sorted_last_extremum (key_ge (inspection_key (normalize rs h))) ranked rs
              (bottom_district out)).
    + eapply tie_break_pass_sorted; [|exact Ht]. by eapply sorted_desc_sorted.
    + rewrite (tie_break_pass_perm _ _ _ Ht). by eapply sorted_perm.
    + exact Hb.
    + apply py_lt_irrefl.
    + exact Hl.
  - apply (process_state_work_inv d rs) in H
      as (-> & ranked & Hs & (_ & _ & Hb & _)); [|done].
    intros l Hl.
    eapply (sorted_last_extremum (key_ge (work_key (normalize rs h))) ranked rs
              (bottom_district out)).
    + by eapply sorted_desc_sorted.
    + by eapply sorted_perm.
    + exact Hb.
    + apply py_lt_irrefl.
    + exact Hl.
  - apply (process_state_zero_muster_inv d rs) in H
      as (-> & ranked & Hs & (_ & _ & Hb & _)); [|done].
    intros l Hl.
    eapply (sorted_last_extremum (key_le (zero_muster_key (normalize rs h))) ranked rs
              (bottom_district out)).
    + by eapply sorted_asc_sorted.
    + by eapply sorted_perm.
    + exact Hb.
    + apply py_lt_irrefl.
    + exact Hl.
Qed.

Lemma bottom_district_holds_extremum_witness :
  results work_payload = Some [0; 1]%nat ∧
  ∃ out h',
    process_state_work_data (Some work_payload) work_heap = (Ok (Some out), h') ∧
    bottom_district out = 0%nat ∧
    holds_minimum (work_key h') (bottom_district out) [0; 1]%nat.
Proof.
  split; [reflexivity|].
  assert (Hd : match (process_state_work_data (Some work_payload) work_heap).1 with
               | Ok (Some out) => bottom_district out = 0%nat
               | _ => False
               end) by (vm_compute; reflexivity).
  destruct (process_state_work_data (Some work_payload) work_heap)
    as [[[out|]|] h'] eqn:E; cbn [fst] in Hd; try contradiction.
  exists out, h'. split; [reflexivity|]. split; [exact Hd|].
  exact (proj1 (proj2 (bottom_district_holds_extremum work_payload [0; 1]%nat
                         work_heap out h' eq_refl)) E).
Defined.

Lemma bubble_from_no_tie h rest : ∀ a,
  Forall (λ l, ¬ lacks_marks h l) (a :: rest) →
  no_adjacent_tie h (a :: rest) →
  bubble_from h a rest = Ok (a :: rest).
Proof.
  induction rest as [|b rest IH]; intros a Hm Hn; [done|].
  destruct Hn as [Hab Hn].
  pose proof Hm as Hm'. apply Forall_cons_1 in Hm' as [Ha Hm'].
  pose proof Hm' as Hm''. apply Forall_cons_1 in Hm'' as [Hb _].
  unfold lacks_marks in Ha, Hb.
  destruct (deref h a !! "total_visit_marks") as [ma|] eqn:Ea; [|done].
  destruct (deref h b !! "total_visit_marks") as [mb|] eqn:Eb; [|done].
  simpl.
  rewrite (swap_test_untied h a b ma mb).
  - simpl. by rewrite (IH b Hm' Hn).
  - unfold rec_getitem. by rewrite Ea.
  - unfold rec_getitem. by rewrite Eb.
  - unfold inspection_key, rec_get in Hab. by rewrite Ea, Eb in Hab.
Qed.

(** Where no two neighbours of the sorted sequence have equal marks (and
    every record has its marks) the tie-break pass changes nothing and reads
    no visit count. *)
Theorem tie_break_without_ties h s :
  Forall (λ l, ¬ lacks_marks h l) s →
  no_adjacent_tie h s →
  tie_break_pass h s = Ok s.
Proof.
  intros Hm Hn. rewrite tie_break_pass_bubble.
  destruct s as [|a rest]; [done|]. by apply bubble_from_no_tie.
Qed.

Lemma tie_break_without_ties_witness :
  Forall (λ l, ¬ lacks_marks blocks_heap l) [3; 4]%nat ∧
  no_adjacent_tie blocks_heap [3; 4]%nat ∧
  tie_break_pass blocks_heap [3; 4]%nat = Ok [3; 4]%nat.
Proof.
  assert (Hm : Forall (λ l, ¬ lacks_marks blocks_heap l) [3; 4]%nat).
  { repeat (apply Forall_cons; split;
            [unfold lacks_marks; vm_compute; discriminate|]).
    apply Forall_nil_2. }
  assert (Hn : no_adjacent_tie blocks_heap [3; 4]%nat).
  { split; [vm_compute; reflexivity|]. split; exact I. }
  split; [exact Hm|]. split; [exact Hn|].
  exact (tie_break_without_ties blocks_heap [3; 4]%nat Hm Hn).
Defined.

(* ===================================================================== *)
(** * Further properties: [sorted] is stable *)
(* ===================================================================== *)

Lemma py_eqb_trans a b c : py_eqb a b = true → py_eqb b c = true → py_eqb a c = true.
Proof. rewrite !py_eqb_key_class. congruence. Qed.

Lemma filter_none {A} (f : A → bool) l :
  (∀ z, In z l → f z = false) → List.filter f l = [].
Proof.
  induction l as [|y l IH]; intros H; [done|]. simpl.
  rewrite (H y (or_introl eq_refl)). apply IH. intros z Hz. apply H. by right.
Qed.

Lemma filter_cons_app {A} (f : A → bool) x l :
  List.filter f (x :: l) = (if f x then [x] else []) ++ List.filter f l.
Proof. simpl. by destruct (f x). Qed.

Lemma insert_by_filter {A} (key : A → value) k x l : ∀ l',
  StronglySorted (key_le key) l →
  insert_by key x l = Ok l' →
  List.filter (λ y, py_eqb (key y) k) l' =
  List.filter (λ y, py_eqb (key y) k) l ++ (if py_eqb (key x) k then [x] else []).
Proof.
  induction l as [|y l IH]; intros l' Hs H; simpl in H.
  - injection H as <-. simpl. by destruct (py_eqb (key x) k).
  - apply StronglySorted_inv in Hs as [Hs Hy].
    apply bind_ok_inv in H as ([] & Hlt & H).
    + injection H as <-.
      destruct (py_eqb (key x) k) eqn:Ex.
      * assert (Hnone : List.filter (λ z, py_eqb (key z) k) (y :: l) = []).
        { apply filter_none. intros z Hz.
          destruct (py_eqb (key z) k) eqn:Ez; [exfalso|done].
          assert (He : py_eqb (key x) (key z) = true).
          { apply (py_eqb_trans _ k); [done|]. by rewrite py_eqb_sym. }
          rewrite (py_lt_eqb_l _ _ _ He) in Hlt.
          destruct Hz as [<-|Hz].
          - by rewrite py_lt_irrefl in Hlt.
          - rewrite Forall_forall in Hy.
            assert (Hle : key_le key y z) by (apply Hy; by apply list_elem_of_In).
            unfold key_le in Hle. congruence. }
        rewrite (filter_cons_app _ x (y :: l)). by rewrite Hnone, Ex.
      * rewrite (filter_cons_app _ x (y :: l)), Ex. simpl. by rewrite app_nil_r.
    + apply fmap_ok_inv in H as (r & Hr & ->).
      rewrite !(filter_cons_app _ y), (IH r Hs Hr). by rewrite app_assoc.
Qed.

Lemma sort_fold_filter {A} (key : A → value) k l : ∀ acc l',
  StronglySorted (key_le key) acc →
  foldl (λ acc x, s ← acc; insert_by key x s) (Ok acc) l = Ok l' →
  List.filter (λ y, py_eqb (key y) k) l' =
  List.filter (λ y, py_eqb (key y) k) acc ++ List.filter (λ y, py_eqb (key y) k) l.
Proof.
  induction l as [|x l IH]; intros acc l' Hacc H; simpl in H.
  - injection H as <-. simpl. by rewrite app_nil_r.
  - destruct (insert_by key x acc) as [acc'|e] eqn:E; cbn [mbind result_bind] in H.
    + rewrite (IH acc' l' (insert_by_sorted key x acc acc' Hacc E) H).
      rewrite (insert_by_filter key k x acc acc' Hacc E).
      rewrite <- app_assoc. f_equal. by rewrite (filter_cons_app _ x l).
    + by rewrite sort_fold_raise in H.
Qed.

(** [sorted] is stable in both directions: the records whose key equals a
    given value come out in the order in which they went in. *)
Theorem sorted_is_stable {A} (l : list A) key reverse s k :
  sorted l key reverse = Ok s →
  List.filter (λ y, py_eqb (key y) k) s = List.filter (λ y, py_eqb (key y) k) l.
Proof.
  unfold sorted, sort_by. destruct reverse; intros H.
  - apply fmap_ok_inv in H as (s0 & Hs0 & ->).
    apply (sort_fold_filter key k) in Hs0; [|constructor]. simpl in Hs0.
    by rewrite List.filter_rev, Hs0, List.filter_rev, rev_involutive.
  - apply (sort_fold_filter key k) in H; [|constructor]. exact H.
Qed.

Lemma sorted_is_stable_witness :
  sorted [0; 1; 2]%nat (inspection_key scenario_heap) false = Ok [2; 0; 1]%nat ∧
  List.filter (λ y, py_eqb (inspection_key scenario_heap y) (VInt 6)) [2; 0; 1]%nat =
  List.filter (λ y, py_eqb (inspection_key scenario_heap y) (VInt 6)) [0; 1; 2]%nat.
Proof.
  assert (Hs : sorted [0; 1; 2]%nat (inspection_key scenario_heap) false
               = Ok [2; 0; 1]%nat) by (vm_compute; reflexivity).
  split; [exact Hs|].
  exact (sorted_is_stable [0; 1; 2]%nat (inspection_key scenario_heap) false
           [2; 0; 1]%nat (VInt 6) Hs).
Defined.



(* ===================================================================== *)
(** * Further properties: records without a name *)
(* ===================================================================== *)

Lemma assign_ranks_from_lacking h l : ∀ i acc,
  Exists (λ x, entity_name h x = None) l →
  assign_ranks_from h i l acc = Raise KeyError.
Proof.
  induction l as [|x l IH]; intros i acc Hex; [by apply Exists_nil in Hex|].
  simpl. unfold rec_getitem.
  destruct (deref h x !! "group_name") as [name|] eqn:E; [|done].
  cbn [mbind result_bind]. apply IH.
  apply Exists_cons in Hex as [Hx|Hex]; [|done].
  unfold entity_name in Hx. congruence.
Qed.

Lemma entity_name_normalize rs h l :
  l ∈ rs → entity_name h l = None → entity_name (normalize rs h) l = None.
Proof.
  intros Hl H. unfold entity_name in *.
  by rewrite deref_normalize, normalize_record_lookup, H.
Qed.

Lemma key_numeric_normalize rs h field dflt l :
  l ∈ rs →
  is_number (rec_get (deref h l) field dflt) = true →
  is_number dflt = true →
  is_number (rec_get (deref (normalize rs h) l) field dflt) = true.
Proof.
  intros Hl H Hd. rewrite deref_normalize by done.
  unfold rec_get in *. rewrite normalize_record_lookup.
  destruct (deref h l !! field) as [v|]; simpl in *; [|done].
  by rewrite is_number_normalize.
Qed.

Lemma exists_lacking_name_sorted rs h s :
  s ≡ₚ rs →
  Exists (λ l, entity_name h l = None) rs →
  Exists (λ x, entity_name (normalize rs h) x = None) s.
Proof.
  intros Hp Hex. apply Exists_exists in Hex as (l & Hl & Hn).
  apply Exists_exists. exists l. split; [by rewrite Hp|].
  by apply entity_name_normalize.
Qed.

(** A state aggregator of the work-management or zero-muster pipeline whose
    sort keys are numbers raises [KeyError] as soon as one record of the
    collection has no ['group_name']: the rank loop subscripts the name of
    every record. *)
Theorem record_without_name_raises d rs h :
  results d = Some rs →
  Exists (λ l, entity_name h l = None) rs →
  (passthrough_numeric d = true →
   Forall (λ l, is_number (work_key h l) = true) rs →
   (process_state_work_data (Some d) h).1 = Raise KeyError) ∧
  (Forall (λ l, is_number (zero_muster_key h l) = true) rs →
   (process_state_zero_muster_data (Some d) h).1 = Raise KeyError).
Proof.
  intros Hrs Hex. split.
  - intros Hpass Hnum.
    destruct (sorted_numeric rs (work_key (normalize rs h)) true) as (s & Hs).
    { apply Forall_forall. intros l Hl. unfold work_key.
      apply key_numeric_normalize; [done| |done].
      by apply (proj1 (Forall_forall _ _) Hnum). }
    unfold process_state_work_data.
    rewrite (payload_with_results_truthy d rs Hrs), Hrs. cbn [fst].
    unfold passthrough_numeric in Hpass. apply andb_true_iff in Hpass as [Hp Hc].
    destruct (rec_get (scalars d) "state_avg_prev" (VInt 0)); [| |done];
      destruct (rec_get (scalars d) "state_avg_curr" (VInt 0)); try done;
      cbn [py_round2 mbind result_bind]; rewrite Hs; cbn [mbind result_bind];
      unfold assign_ranks;
      rewrite (assign_ranks_from_lacking (normalize rs h) s 0 []); try done;
      (eapply exists_lacking_name_sorted; [by eapply sorted_perm|done]).
  - intros Hnum.
    destruct (sorted_numeric rs (zero_muster_key (normalize rs h)) false) as (s & Hs).
    { apply Forall_forall. intros l Hl. unfold zero_muster_key.
      apply key_numeric_normalize; [done| |done].
      by apply (proj1 (Forall_forall _ _) Hnum). }
    unfold process_state_zero_muster_data.
    rewrite (payload_with_results_truthy d rs Hrs), Hrs. cbn [fst].
    rewrite Hs. cbn [mbind result_bind]. unfold assign_ranks.
    rewrite (assign_ranks_from_lacking (normalize rs h) s 0 []); [done|].
    eapply exists_lacking_name_sorted; [by eapply sorted_perm|done].
Qed.

Lemma record_without_name_raises_witness :
  results nameless_payload = Some [0; 1]%nat ∧
  Exists (λ l, entity_name nameless_heap l = None) [0; 1]%nat ∧
  Forall (λ l, is_number (zero_muster_key nameless_heap l) = true) [0; 1]%nat ∧
  (process_state_zero_muster_data (Some nameless_payload) nameless_heap).1
    = Raise KeyError.
Proof.
  assert (Hex : Exists (λ l, entity_name nameless_heap l = None) [0; 1]%nat).
  { apply Exists_cons_tl, Exists_cons_hd. vm_compute. reflexivity. }
  assert (Hnum : Forall (λ l, is_number (zero_muster_key nameless_heap l) = true)
                   [0; 1]%nat).
  { repeat (apply Forall_cons; split; [vm_compute; reflexivity|]). apply Forall_nil_2. }
  split; [reflexivity|]. split; [exact Hex|]. split; [exact Hnum|].
  exact (proj2 (record_without_name_raises nameless_payload [0; 1]%nat nameless_heap
                  eq_refl Hex) Hnum).
Defined.

(* ===================================================================== *)
(** * Further properties: the three orchestrators *)
(* ===================================================================== *)

Lemma main_orchestrate :
  main = orchestrate process_state_inspection_data process_district_inspection_data ∧
  work_main = orchestrate process_state_work_data process_district_work_data ∧
  zero_muster_main =
    orchestrate process_state_zero_muster_data process_district_zero_muster_data.
Proof. repeat split. Qed.

Lemma dict_get_set d k v q :
  dict_get (dict_set d k v) q = if py_eqb k q then Some v else dict_get d q.
Proof.
  induction d as [|[k0 v0] d IH]; simpl; [done|].
  destruct (py_eqb k0 k) eqn:E0; simpl.
  - destruct (py_eqb k q) eqn:Eq.
    + by rewrite (py_eqb_trans k0 k q).
    + destruct (py_eqb k0 q) eqn:E0q; [|done].
      rewrite py_eqb_sym in E0. by rewrite (py_eqb_trans k k0 q) in Eq.
  - rewrite IH. destruct (py_eqb k0 q) eqn:E0q; [|done].
    destruct (py_eqb k q) eqn:Eq; [|done].
    rewrite py_eqb_sym in Eq. by rewrite (py_eqb_trans k0 q k) in E0.
Qed.

(** A name has no rank exactly when no record carries it. *)
Lemma assign_ranks_from_get_none h l q : ∀ i acc res,
  assign_ranks_from h i l acc = Ok res →
  dict_get res q = None ↔
  dict_get acc q = None ∧
  Forall (λ x, ∃ n, entity_name h x = Some n ∧ py_eqb n q = false) l.
Proof.
  induction l as [|x l IH]; intros i acc res H; simpl in H.
  - injection H as <-. split; [by intros ?; split|by intros [? _]].
  - apply bind_ok_inv in H as (name & Hname & H).
    assert (Hn : entity_name h x = Some name).
    { unfold entity_name. unfold rec_getitem in Hname.
      destruct (deref h x !! "group_name"); [by injection Hname as ->|done]. }
    rewrite (IH _ _ _ H), dict_get_set. split.
    + intros [Hg Hf]. destruct (py_eqb name q) eqn:E; [done|].
      split; [done|]. constructor; [by exists name|done].
    + intros [Hg Hf]. apply Forall_cons_1 in Hf as [(n & Hn' & Hq) Hf].
      rewrite Hn in Hn'. injection Hn' as <-. by rewrite Hq.
Qed.

Lemma find_district_none h rs district :
  find_district h rs district = Ok None →
  Forall (λ x, ∃ n, entity_name h x = Some n ∧ py_eqb n (VStr district) = false) rs.
Proof.
  induction rs as [|x rs IH]; intros H; simpl in H; [constructor|].
  apply bind_ok_inv in H as (name & Hname & H).
  destruct (py_eqb name (VStr district)) eqn:E; [discriminate|].
  constructor; [|by apply IH].
  exists name. split; [|done]. unfold entity_name. unfold rec_getitem in Hname.
  destruct (deref h x !! "group_name"); [by injection Hname as ->|done].
Qed.

Lemma find_district_some h rs district l :
  find_district h rs district = Ok (Some l) →
  l ∈ rs ∧ ∃ n, entity_name h l = Some n ∧ py_eqb n (VStr district) = true.
Proof.
  induction rs as [|x rs IH]; intros H; simpl in H; [discriminate|].
  apply bind_ok_inv in H as (name & Hname & H).
  destruct (py_eqb name (VStr district)) eqn:E.
  - injection H as <-. split; [left|]. exists name. split; [|done].
    unfold entity_name. unfold rec_getitem in Hname.
    destruct (deref h x !! "group_name"); [by injection Hname as ->|done].
  - destruct (IH H) as [Hl Hn]. split; [by right|done].
Qed.

Lemma deref_normalize_again rs rs' (h : gmap nat (gmap string value)) l :
  l ∈ rs → deref (normalize rs' (normalize rs h)) l = deref (normalize rs h) l.
Proof.
  intros Hl. unfold deref. rewrite !lookup_total_alt.
  rewrite (normalize_twice_lookup rs rs' h l Hl), normalize_lookup.
  by destruct (decide (l ∈ rs)).
Qed.

Lemma process_without_results d h :
  results d = None →
  process_state_inspection_data (Some d) h = (Ok None, h) ∧
  process_state_work_data (Some d) h = (Ok None, h) ∧
  process_state_zero_muster_data (Some d) h = (Ok None, h) ∧
  process_district_inspection_data (Some d) h = (Ok None, h) ∧
  process_district_work_data (Some d) h = (Ok None, h) ∧
  process_district_zero_muster_data (Some d) h = (Ok None, h).
Proof.
  intros H.
  unfold process_state_inspection_data, process_state_work_data,
    process_state_zero_muster_data, process_district_inspection_data,
    process_district_work_data, process_district_zero_muster_data.
  rewrite H. by destruct (payload_falsy d).
Qed.

Lemma state_ranks_of d rs h out h' :
  results d = Some rs →
  process_state_inspection_data (Some d) h = (Ok (Some out), h') ∨
  process_state_work_data (Some d) h = (Ok (Some out), h') ∨
  process_state_zero_muster_data (Some d) h = (Ok (Some out), h') →
  ∃ ranked, ranked ≡ₚ rs ∧ assign_ranks h' ranked = Ok (district_ranks out).
Proof.
  intros Hrs [H|[H|H]].
  - apply (process_state_inspection_inv d rs) in H
      as (-> & s & ranked & Hs & Ht & (Hr & _) & _); [|done].
    exists ranked. split; [|done].
    rewrite (tie_break_pass_perm _ _ _ Ht). by eapply sorted_perm.
  - apply (process_state_work_inv d rs) in H as (-> & ranked & Hs & (Hr & _)); [|done].
    exists ranked. split; [by eapply sorted_perm|done].
  - apply (process_state_zero_muster_inv d rs) in H
      as (-> & ranked & Hs & (Hr & _)); [|done].
    exists ranked. split; [by eapply sorted_perm|done].
Qed.

Section Orchestrator.

Variable process_state :
  option payload → gmap nat (gmap string value) →
  result (option state_output) * gmap nat (gmap string value).
Variable process_district :
  option payload → gmap nat (gmap string value) →
  result (option district_output) * gmap nat (gmap string value).

Hypothesis state_none : ∀ d h,
  results d = None → process_state (Some d) h = (Ok None, h).
Hypothesis state_heap : ∀ d rs h,
  results d = Some rs → (process_state (Some d) h).2 = normalize rs h.
Hypothesis state_ranks : ∀ d rs h out h',
  results d = Some rs → process_state (Some d) h = (Ok (Some out), h') →
  ∃ ranked, ranked ≡ₚ rs ∧ assign_ranks h' ranked = Ok (district_ranks out).
Hypothesis district_none : ∀ d h,
  results d = None → process_district (Some d) h = (Ok None, h).
Hypothesis district_heap : ∀ d rs h,
  results d = Some rs → (process_district (Some d) h).2 = normalize rs h.

(** What the orchestrator did when it hands back the assembled data. *)
Lemma orchestrate_data_inv sd dd district h r h' :
  orchestrate process_state process_district (Some sd) dd district h
    = (Ok (MainData r), h') →
  ∃ rs rs' out,
    results sd = Some rs ∧
    process_state (Some sd) h = (Ok (Some out), normalize rs h) ∧
    h' = normalize rs' (normalize rs h) ∧
    find_district h' rs district = Ok (district_info r) ∧
    state_rank r = dict_get (district_ranks out) (VStr district) ∧
    report_total_districts r = total_districts out.
Proof.
  intros H. unfold orchestrate in H.
  destruct (payload_falsy sd); [by injection H|].
  destruct (results sd) as [rs|] eqn:Hrs;
    [|rewrite (state_none sd h Hrs) in H; by injection H].
  pose proof (state_heap sd rs h Hrs) as Hh1.
  destruct (process_state (Some sd) h) as [[[out|]|e] h1];
    [|by injection H|by injection H].
  cbn [snd] in Hh1. subst h1.
  destruct (bool_decide (district = ""%string)); [by injection H|].
  destruct dd as [dd|]; [|by injection H].
  destruct (payload_falsy dd); [by injection H|].
  destruct (results dd) as [rs'|] eqn:Hrs';
    [|rewrite (district_none dd _ Hrs') in H; by injection H].
  pose proof (district_heap dd rs' (normalize rs h) Hrs') as Hh2.
  destruct (process_district (Some dd) (normalize rs h)) as [[[dout|]|e] h2];
    [|by injection H|by injection H].
  cbn [snd] in Hh2. subst h2. cbn [default] in H.
  injection H as H <-.
  apply bind_ok_inv in H as (t & Ht & H). injection H as <-.
  by exists rs, rs', out.
Qed.

Lemma orchestrate_rank_info sd dd district h r h' :
  orchestrate process_state process_district (Some sd) dd district h
    = (Ok (MainData r), h') →
  (state_rank r = None ↔ district_info r = None) ∧
  (∀ l, district_info r = Some l →
     (∃ rs, results sd = Some rs ∧ l ∈ rs) ∧
     h' !! l = normalize_record <$> h !! l ∧
     ∃ n, entity_name h' l = Some n ∧ py_eqb n (VStr district) = true).
Proof.
  intros H.
  apply orchestrate_data_inv in H
    as (rs & rs' & out & Hrs & Hps & -> & Hfind & Hrank & _).
  destruct (state_ranks sd rs h out _ Hrs Hps) as (ranked & Hp & Hr).
  unfold assign_ranks in Hr.
  pose proof (assign_ranks_from_get_none _ _ (VStr district) _ _ _ Hr) as Hnone.
  split.
  - rewrite Hrank, Hnone. split.
    + intros [_ Hf]. destruct (district_info r) as [l|] eqn:El; [exfalso|done].
      apply find_district_some in Hfind as (Hl & n & Hn & Hq).
      rewrite Hp in Hf. rewrite Forall_forall in Hf.
      destruct (Hf l Hl) as (n' & Hn' & Hq').
      unfold entity_name in Hn, Hn'. rewrite deref_normalize_again in Hn by done.
      congruence.
    + intros El. rewrite El in Hfind. apply find_district_none in Hfind.
      split; [done|]. rewrite Hp. apply Forall_forall. intros x Hx.
      rewrite Forall_forall in Hfind. destruct (Hfind x Hx) as (n & Hn & Hq).
      exists n. split; [|done]. unfold entity_name in *.
      by rewrite deref_normalize_again in Hn.
  - intros l El. rewrite El in Hfind.
    apply find_district_some in Hfind as (Hl & Hn).
    split; [by exists rs|]. split; [by apply normalize_twice_lookup|done].
Qed.

(** The stages at which the orchestrator stops. *)
Lemma orchestrate_stops sd dd district h :
  orchestrate process_state process_district None dd district h = (Ok MainNone, h) ∧
  (results sd = None →
   orchestrate process_state process_district (Some sd) dd district h
     = (Ok MainNone, h)) ∧
  (∀ e h1, payload_falsy sd = false →
     process_state (Some sd) h = (Raise e, h1) →
     orchestrate process_state process_district (Some sd) dd district h
       = (Raise e, h1)) ∧
  (∀ rs out h1, results sd = Some rs →
     process_state (Some sd) h = (Ok (Some out), h1) →
     orchestrate process_state process_district (Some sd) dd "" h
       = (Ok (MainMessage "District name is required for analysis"), normalize rs h) ∧
     (district ≠ ""%string →
      (dd = None ∨ ∃ d', dd = Some d' ∧ results d' = None) →
      orchestrate process_state process_district (Some sd) dd district h
        = (Ok MainNone, normalize rs h))).
Proof.
  split; [reflexivity|]. split; [|split].
  - intros Hrs. unfold orchestrate.
    destruct (payload_falsy sd); [done|]. by rewrite (state_none sd h Hrs).
  - intros e h1 Hf Hps. unfold orchestrate. by rewrite Hf, Hps.
  - intros rs out h1 Hrs Hps.
    pose proof (state_heap sd rs h Hrs) as Hh. rewrite Hps in Hh. cbn [snd] in Hh.
    subst h1. unfold orchestrate.
    rewrite (payload_with_results_truthy sd rs Hrs), Hps. split; [reflexivity|].
    intros Hne Hdd. rewrite bool_decide_eq_false_2 by done.
    destruct Hdd as [->|(d' & -> & Hd')]; [done|].
    destruct (payload_falsy d'); [done|].
    by rewrite (district_none d' _ Hd').
Qed.

End Orchestrator.

(** When an orchestrator returns the assembled data, the rank and the
    record it reports for the target district agree: there is a rank
    exactly when a record of the state payload carries the district's name;
    the record reported is a record of the state payload with that name,
    already normalised. *)
Theorem orchestrators_rank_and_info_agree sd dd district h r h' :
  main (Some sd) dd district h = (Ok (MainData r), h') ∨
  work_main (Some sd) dd district h = (Ok (MainData r), h') ∨
  zero_muster_main (Some sd) dd district h = (Ok (MainData r), h') →
  (state_rank r = None ↔ district_info r = None) ∧
  (∀ l, district_info r = Some l →
     (∃ rs, results sd = Some rs ∧ l ∈ rs) ∧
     h' !! l = normalize_record <$> h !! l ∧
     ∃ n, entity_name h' l = Some n ∧ py_eqb n (VStr district) = true).
Proof.
  intros [H|[H|H]].
  - apply (orchestrate_rank_info process_state_inspection_data
             process_district_inspection_data) with (dd := dd); [| | | | |exact H].
    + intros d h0 Hd. apply (process_without_results d h0 Hd).
    + intros d rs h0 Hd. apply (process_heap d rs h0 Hd).
    + intros d rs h0 out h1 Hd Hp. apply (state_ranks_of d rs h0 out h1 Hd). by left.
    + intros d h0 Hd. apply (process_without_results d h0 Hd).
    + intros d rs h0 Hd. apply (process_heap d rs h0 Hd).
  - apply (orchestrate_rank_info process_state_work_data
             process_district_work_data) with (dd := dd); [| | | | |exact H].
    + intros d h0 Hd. apply (process_without_results d h0 Hd).
    + intros d rs h0 Hd. apply (process_heap d rs h0 Hd).
    + intros d rs h0 out h1 Hd Hp. apply (state_ranks_of d rs h0 out h1 Hd).
      right. by left.
    + intros d h0 Hd. apply (process_without_results d h0 Hd).
    + intros d rs h0 Hd. apply (process_heap d rs h0 Hd).
  - apply (orchestrate_rank_info process_state_zero_muster_data
             process_district_zero_muster_data) with (dd := dd); [| | | | |exact H].
    + intros d h0 Hd. apply (process_without_results d h0 Hd).
    + intros d rs h0 Hd. apply (process_heap d rs h0 Hd).
    + intros d rs h0 out h1 Hd Hp. apply (state_ranks_of d rs h0 out h1 Hd).
      right. by right.
    + intros d h0 Hd. apply (process_without_results d h0 Hd).
    + intros d rs h0 Hd. apply (process_heap d rs h0 Hd).
Qed.

Lemma orchestrators_rank_and_info_agree_witness :
  ∃ r h',
    main (Some scenario_payload) (Some blocks_payload) "Z" blocks_heap
      = (Ok (MainData r), h') ∧
    state_rank r = None ∧ district_info r = None.
Proof.
  assert (Hd : match (main (Some scenario_payload) (Some blocks_payload) "Z"
                        blocks_heap).1 with
               | Ok (MainData r) => state_rank r = None
               | _ => False
               end) by (vm_compute; reflexivity).
  destruct (main (Some scenario_payload) (Some blocks_payload) "Z" blocks_heap)
    as [[[| |r]|] h'] eqn:E; cbn [fst] in Hd; try contradiction.
  exists r, h'. split; [reflexivity|]. split; [exact Hd|].
  exact (proj1 (proj1 (orchestrators_rank_and_info_agree scenario_payload
                         (Some blocks_payload) "Z" blocks_heap r h' (or_introl E)))
           Hd).
Defined.

Lemma orchestrator_orchestrate p :
  orchestrator p = orchestrate (state_aggregator p) (district_aggregator p).
Proof. by destruct p. Qed.

(** The stages at which an orchestrator stops.  Without a state payload, or
    with one that has no ['results'], it returns [None] and touches no
    record; a fault of the state aggregator leaves [main] as it is (nothing
    catches it); without a district name it returns the "district required"
    message, after the state records have been normalised; and with a name
    but no usable district payload it returns [None], the state records
    being normalised all the same. *)
Theorem orchestrators_stop_early p sd dd district h :
  orchestrator p None dd district h = (Ok MainNone, h) ∧
  (results sd = None → orchestrator p (Some sd) dd district h = (Ok MainNone, h)) ∧
  (∀ e h1, payload_falsy sd = false →
     state_aggregator p (Some sd) h = (Raise e, h1) →
     orchestrator p (Some sd) dd district h = (Raise e, h1)) ∧
  (∀ rs out h1, results sd = Some rs →
     state_aggregator p (Some sd) h = (Ok (Some out), h1) →
     orchestrator p (Some sd) dd "" h
       = (Ok (MainMessage "District name is required for analysis"), normalize rs h) ∧
     (district ≠ ""%string →
      (dd = None ∨ ∃ d', dd = Some d' ∧ results d' = None) →
      orchestrator p (Some sd) dd district h = (Ok MainNone, normalize rs h))).
Proof.
  rewrite orchestrator_orchestrate.
  apply orchestrate_stops.
  - intros d h0 Hd. destruct p; apply (process_without_results d h0 Hd).
  - intros d rs h0 Hd. destruct p; apply (process_heap d rs h0 Hd).
  - intros d h0 Hd. destruct p; apply (process_without_results d h0 Hd).
Qed.

Lemma orchestrators_stop_early_witness :
  results scenario_payload = Some [0; 1; 2]%nat ∧
  main (Some scenario_payload) None "" scenario_heap
    = (Ok (MainMessage "District name is required for analysis"),
       normalize [0; 1; 2]%nat scenario_heap) ∧
  main (Some scenario_payload) None "B" scenario_heap
    = (Ok MainNone, normalize [0; 1; 2]%nat scenario_heap).
Proof.
  split; [reflexivity|].
  assert (Hd : match (process_state_inspection_data (Some scenario_payload)
                        scenario_heap).1 with
               | Ok (Some out) => True
               | _ => False
               end) by (vm_compute; exact I).
  destruct (process_state_inspection_data (Some scenario_payload) scenario_heap)
    as [[[out|]|] h1] eqn:E; cbn [fst] in Hd; try contradiction.
  destruct (proj2 (proj2 (proj2 (orchestrators_stop_early Inspection scenario_payload
                                   None "B" scenario_heap)))
              [0; 1; 2]%nat out h1 eq_refl E) as [Hmsg Hnone].
  split; [exact Hmsg|].
  apply Hnone; [discriminate|by left].
Defined.

(* ===================================================================== *)
(** * Further properties: the best and worst block of a district summary *)
(* ===================================================================== *)

Lemma average_nonempty h rs field v : average h rs field = Ok v → rs ≠ [].
Proof. intros H ->. vm_compute in H. discriminate H. Qed.

Lemma name_if_reported h b j : name_if h (Some b) = Ok j → j = reported_name h b.
Proof.
  unfold name_if, reported_name, rec_getitem. case_bool_decide; [by intros [= <-]|].
  destruct (deref h b !! "group_name"); simpl; [by intros [= <-]|discriminate].
Qed.

Lemma metric_if_get h b field :
  metric_if h (Some b) field = JValue (rec_get (deref h b) field (VInt 0)).
Proof.
  unfold metric_if. case_bool_decide as E; [|done].
  rewrite E. unfold rec_get. by rewrite lookup_empty.
Qed.

Lemma first_or_none_head l : first_or_none l = head l.
Proof. unfold first_or_none. by rewrite head_lookup. Qed.

Lemma last_or_none_last l : last_or_none l = last l.
Proof. unfold last_or_none. by rewrite last_lookup, Nat.sub_1_r. Qed.

Lemma nonempty_ends {A} (l : list A) :
  l ≠ [] → ∃ x y, head l = Some x ∧ last l = Some y.
Proof.
  intros Hl. destruct l as [|x l]; [done|].
  destruct (last (x :: l)) as [y|] eqn:E.
  - by exists x, y.
  - by apply last_None in E.
Qed.

Lemma sorted_head_bound {A} (R : A → A → Prop) ranked rs x :
  StronglySorted R ranked → ranked ≡ₚ rs → head ranked = Some x → R x x →
  ∀ l, l ∈ rs → R x l.
Proof.
  intros Hs Hp Hh Hx l Hin. destruct ranked as [|y r]; [discriminate|].
  injection Hh as ->. apply StronglySorted_inv in Hs as [_ Hall].
  rewrite <- Hp in Hin. apply elem_of_cons in Hin as [->|Hin]; [done|].
  rewrite Forall_forall in Hall. by apply Hall.
Qed.

Lemma sorted_last_bound {A} (R : A → A → Prop) ranked rs x :
  StronglySorted R ranked → ranked ≡ₚ rs → last ranked = Some x → R x x →
  ∀ l, l ∈ rs → R l x.
Proof.
  intros Hs Hp Hl Hx l Hin. apply last_Some in Hl as (pre & ->).
  apply StronglySorted_last in Hs. rewrite <- Hp in Hin.
  apply elem_of_app in Hin as [Hin|Hin].
  - rewrite Forall_forall in Hs. by apply Hs.
  - apply list_elem_of_singleton in Hin as ->. done.
Qed.

Lemma process_district_inspection_ends d rs h out h' :
  results d = Some rs →
  process_district_inspection_data (Some d) h = (Ok (Some out), h') →
  ∃ best worst,
    reports_extrema h' out "total_visit_marks"
      "highest_performing_block" "highest_total_marks"
      "lowest_performing_block" "lowest_total_marks" best worst.
Proof.
  intros Hrs H. unfold process_district_inspection_data in H.
  rewrite (payload_with_results_truthy d rs Hrs), Hrs in H.
  injection H as H <-. inv_binds H. injection H as <-.
  assert (Hne : x0 ≠ []).
  { pose proof (tie_break_pass_perm _ _ _ Hx0) as Hp.
    pose proof (sorted_perm rs _ true _ Hx) as Hq.
    intros ->. apply Permutation_nil in Hp. subst x.
    apply Permutation_nil in Hq. subst rs.
    by eapply average_nonempty. }
  destruct (nonempty_ends x0 Hne) as (best & worst & Hb & Hw).
  rewrite first_or_none_head, Hb in *. rewrite last_or_none_last, Hw in *.
  apply name_if_reported in Hx6 as ->. apply name_if_reported in Hx7 as ->.
  exists best, worst. unfold reports_extrema; cbn [blocks district_summary].
  rewrite <- !metric_if_get.
  split; [exact Hb|]. split; [exact Hw|]. repeat split; reflexivity.
Qed.

Lemma rec_getitem_reported h b n :
  rec_getitem (deref h b) "group_name" = Ok n → JValue n = reported_name h b.
Proof.
  unfold rec_getitem, reported_name.
  destruct (deref h b !! "group_name") as [v|] eqn:E; [intros [= ->]|discriminate].
  case_bool_decide as E0; [|done]. rewrite E0, lookup_empty in E. discriminate E.
Qed.

Lemma getitem_zero_head {A} (l : list A) x : getitem l 0 = Ok x → head l = Some x.
Proof. intros H. by apply getitem_head in H as (r & ->). Qed.

Lemma getlast_last {A} (l : list A) x : getlast l = Ok x → last l = Some x.
Proof. intros H. apply getlast_snoc in H as (pre & ->). apply last_snoc. Qed.

Lemma process_district_work_ends d rs h out h' :
  results d = Some rs →
  process_district_work_data (Some d) h = (Ok (Some out), h') →
  ∃ best worst,
    reports_extrema h' out "work_management_total"
      "highest_performing_block" "highest_total_marks"
      "lowest_performing_block" "lowest_total_marks" best worst.
Proof.
  intros Hrs H. unfold process_district_work_data in H.
  rewrite (payload_with_results_truthy d rs Hrs), Hrs in H.
  injection H as H <-. inv_binds H. injection H as <-.
  repeat match goal with
         | G : rec_getitem _ "group_name" = Ok _ |- _ => apply rec_getitem_reported in G
         | G : getitem _ 0 = Ok _ |- _ => apply getitem_zero_head in G
         | G : getlast _ = Ok _ |- _ => apply getlast_last in G
         end.
  eexists _, _. unfold reports_extrema; cbn [blocks district_summary].
  split; [eassumption|]. split; [eassumption|].
  repeat match goal with
         | G : JValue _ = reported_name _ _ |- _ => rewrite <- G; clear G
         end.
  repeat split; reflexivity.
Qed.

Lemma process_district_zero_muster_ends d rs h out h' :
  results d = Some rs →
  process_district_zero_muster_data (Some d) h = (Ok (Some out), h') →
  ∃ best worst,
    reports_extrema h' out "zero_attendance_percentage"
      "best_performing_block" "best_zero_attendance_percentage"
      "worst_performing_block" "worst_zero_attendance_percentage" best worst.
Proof.
  intros Hrs H. unfold process_district_zero_muster_data in H.
  rewrite (payload_with_results_truthy d rs Hrs), Hrs in H.
  injection H as H <-. inv_binds H. injection H as <-.
  assert (Hne : x ≠ []).
  { pose proof (sorted_perm rs _ false _ Hx) as Hq.
    intros ->. apply Permutation_nil in Hq. subst rs.
    by eapply average_nonempty. }
  destruct (nonempty_ends x Hne) as (best & worst & Hb & Hw).
  rewrite first_or_none_head, Hb in *. rewrite last_or_none_last, Hw in *.
  repeat match goal with
         | G : name_if _ (Some _) = Ok _ |- _ => apply name_if_reported in G as ->
         end.
  exists best, worst. unfold reports_extrema; cbn [blocks district_summary].
  rewrite <- !metric_if_get.
  split; [exact Hb|]. split; [exact Hw|]. repeat split; reflexivity.
Qed.

(** A district summary names the first and the last block of the
    ranking it returns and reports their metric read with a default of 0;
    the first block holds the maximum and the last the minimum of the sort
    key in the inspection and work-management pipelines, the other way
    round for the zero-attendance percentage of the zero-muster pipeline. *)
Theorem district_summary_reports_extrema d rs h out h' :
  results d = Some rs →
  (process_district_inspection_data (Some d) h = (Ok (Some out), h') →
   ∃ best worst,
     reports_extrema h' out "total_visit_marks"
       "highest_performing_block" "highest_total_marks"
       "lowest_performing_block" "lowest_total_marks" best worst ∧
     holds_maximum (inspection_key h') best rs ∧
     holds_minimum (inspection_key h') worst rs) ∧
  (process_district_work_data (Some d) h = (Ok (Some out), h') →
   ∃ best worst,
     reports_extrema h' out "work_management_total"
       "highest_performing_block" "highest_total_marks"
       "lowest_performing_block" "lowest_total_marks" best worst ∧
     holds_maximum (work_key h') best rs ∧
     holds_minimum (work_key h') worst rs) ∧
  (process_district_zero_muster_data (Some d) h = (Ok (Some out), h') →
   ∃ best worst,
     reports_extrema h' out "zero_attendance_percentage"
       "best_performing_block" "best_zero_attendance_percentage"
       "worst_performing_block" "worst_zero_attendance_percentage" best worst ∧
     holds_minimum (zero_muster_key h') best rs ∧
     holds_maximum (zero_muster_key h') worst rs).
Proof.
  intros Hrs. split; [|split]; intros H.
  - destruct (process_district_inspection_ends d rs h out h' Hrs H)
      as (best & worst & Hr).
    exists best, worst. split; [exact Hr|].
    destruct Hr as (Hb & Hw & _).
    apply (process_district_inspection_inv d rs) in H
      as (-> & s & ranked & Hs & Ht & (Hbl & _)); [|done].
    rewrite Hbl in Hb, Hw.
    assert (Hsorted : StronglySorted (key_ge (inspection_key (normalize rs h))) ranked).
    { eapply tie_break_pass_sorted; [|exact Ht]. by eapply sorted_desc_sorted. }
    assert (Hperm : ranked ≡ₚ rs).
    { rewrite (tie_break_pass_perm _ _ _ Ht). by eapply sorted_perm. }
    split; intros l Hl.
    + refine (sorted_head_bound _ ranked rs best Hsorted Hperm Hb _ l Hl).
      apply py_lt_irrefl.
    + refine (sorted_last_bound _ ranked rs worst Hsorted Hperm Hw _ l Hl).
      apply py_lt_irrefl.
  - destruct (process_district_work_ends d rs h out h' Hrs H)
      as (best & worst & Hr).
    exists best, worst. split; [exact Hr|].
    destruct Hr as (Hb & Hw & _).
    apply (process_district_work_inv d rs) in H
      as (-> & ranked & Hs & (Hbl & _)); [|done].
    rewrite Hbl in Hb, Hw.
    assert (Hsorted : StronglySorted (key_ge (work_key (normalize rs h))) ranked)
      by (by eapply sorted_desc_sorted).
    assert (Hperm : ranked ≡ₚ rs) by (by eapply sorted_perm).
    split; intros l Hl.
    + refine (sorted_head_bound _ ranked rs best Hsorted Hperm Hb _ l Hl).
      apply py_lt_irrefl.
    + refine (sorted_last_bound _ ranked rs worst Hsorted Hperm Hw _ l Hl).
      apply py_lt_irrefl.
  - destruct (process_district_zero_muster_ends d rs h out h' Hrs H)
      as (best & worst & Hr).
    exists best, worst. split; [exact Hr|].
    destruct Hr as (Hb & Hw & _).
    apply (process_district_zero_muster_inv d rs) in H
      as (-> & ranked & Hs & (Hbl & _)); [|done].
    rewrite Hbl in Hb, Hw.
    assert (Hsorted : StronglySorted (key_le (zero_muster_key (normalize rs h))) ranked)
      by (by eapply sorted_asc_sorted).
    assert (Hperm : ranked ≡ₚ rs) by (by eapply sorted_perm).
    split; intros l Hl.
    + refine (sorted_head_bound _ ranked rs best Hsorted Hperm Hb _ l Hl).
      apply py_lt_irrefl.
    + refine (sorted_last_bound _ ranked rs worst Hsorted Hperm Hw _ l Hl).
      apply py_lt_irrefl.
Qed.

Lemma district_summary_reports_extrema_witness :
  results work_payload = Some [0; 1]%nat ∧
  ∃ out h',
    process_district_work_data (Some work_payload) work_heap = (Ok (Some out), h') ∧
    blocks out = [1; 0]%nat ∧
    ∃ best worst,
      reports_extrema h' out "work_management_total"
        "highest_performing_block" "highest_total_marks"
        "lowest_performing_block" "lowest_total_marks" best worst ∧
      holds_maximum (work_key h') best [0; 1]%nat ∧
      holds_minimum (work_key h') worst [0; 1]%nat.
Proof.
  split; [reflexivity|].
  assert (Hd : match (process_district_work_data (Some work_payload) work_heap).1 with
               | Ok (Some out) => blocks out = [1; 0]%nat
               | _ => False
               end) by (vm_compute; reflexivity).
  destruct (process_district_work_data (Some work_payload) work_heap)
    as [[[out|]|] h'] eqn:E; cbn [fst] in Hd; try contradiction.
  exists out, h'. split; [reflexivity|]. split; [exact Hd|].
  exact (proj1 (proj2 (district_summary_reports_extrema work_payload [0; 1]%nat work_heap
                         out h' eq_refl)) E).
Defined.

(** In the zero-muster pipeline a block without a
    ['zero_attendance_percentage'] is sorted as if it had 100 percent, but
    when it comes out last the summary reports its percentage as 0. *)
Theorem unmeasured_block_sorts_high_reports_zero d rs h out h' l :
  results d = Some rs →
  process_district_zero_muster_data (Some d) h = (Ok (Some out), h') →
  last (blocks out) = Some l →
  deref h l !! "zero_attendance_percentage" = None →
  zero_muster_key h' l = VInt 100 ∧
  holds_maximum (zero_muster_key h') l rs ∧
  district_summary out !! "worst_zero_attendance_percentage" = Some (JValue (VInt 0)).
Proof.
  intros Hrs H Hlast Hnone.
  destruct (process_district_zero_muster_ends d rs h out h' Hrs H)
    as (best & worst & _ & Hw & _ & _ & _ & Hv).
  rewrite Hlast in Hw. injection Hw as <-.
  apply (process_district_zero_muster_inv d rs) in H
    as (-> & ranked & Hs & (Hbl & _)); [|done].
  rewrite Hbl in Hlast.
  assert (Hperm : ranked ≡ₚ rs) by (by eapply sorted_perm).
  assert (Hin : l ∈ rs).
  { rewrite <- Hperm. apply last_Some in Hlast as (pre & ->).
    apply elem_of_app. right. apply list_elem_of_singleton. reflexivity. }
  assert (Hl : deref (normalize rs h) l !! "zero_attendance_percentage" = None)
    by (by rewrite deref_normalize, normalize_record_lookup, Hnone).
  split; [by unfold zero_muster_key, rec_get; rewrite Hl|].
  split.
  - intros l' Hl'.
    assert (Hsorted : StronglySorted (key_le (zero_muster_key (normalize rs h))) ranked)
      by (by eapply sorted_asc_sorted).
    refine (sorted_last_bound _ ranked rs l Hsorted Hperm Hlast _ l' Hl').
    apply py_lt_irrefl.
  - rewrite Hv. unfold rec_get. by rewrite Hl.
Qed.

Lemma unmeasured_block_sorts_high_reports_zero_witness :
  results unmeasured_payload = Some [0; 1]%nat ∧
  deref unmeasured_heap 1%nat !! "zero_attendance_percentage" = None ∧
  ∃ out h',
    process_district_zero_muster_data (Some unmeasured_payload) unmeasured_heap
      = (Ok (Some out), h') ∧
    last (blocks out) = Some 1%nat ∧
    zero_muster_key h' 1%nat = VInt 100 ∧
    holds_maximum (zero_muster_key h') 1%nat [0; 1]%nat ∧
    district_summary out !! "worst_zero_attendance_percentage" = Some (JValue (VInt 0)).
Proof.
  split; [reflexivity|]. split; [vm_compute; reflexivity|].
  assert (Hd : match (process_district_zero_muster_data (Some unmeasured_payload)
                        unmeasured_heap).1 with
               | Ok (Some out) => last (blocks out) = Some 1%nat
               | _ => False
               end) by (vm_compute; reflexivity).
  destruct (process_district_zero_muster_data (Some unmeasured_payload) unmeasured_heap)
    as [[[out|]|] h'] eqn:E; cbn [fst] in Hd; try contradiction.
  exists out, h'. split; [reflexivity|]. split; [exact Hd|].
  apply (unmeasured_block_sorts_high_reports_zero unmeasured_payload [0; 1]%nat
           unmeasured_heap out h' 1%nat eq_refl E Hd).
  vm_compute; reflexivity.
Defined.

(* ===================================================================== *)
(** * Further properties: sort keys of mixed types *)
(* ===================================================================== *)

Lemma py_lt_kind a b t : py_lt a b = Ok t → is_number a = is_number b.
Proof. destruct a, b; simpl; intros H; try reflexivity; discriminate H. Qed.

Lemma py_lt_raises a b e : py_lt a b = Raise e → e = TypeError.
Proof. destruct a, b; simpl; intros H; try discriminate H; by injection H. Qed.

Lemma insert_by_raises {A} (key : A → value) x l e :
  insert_by key x l = Raise e → e = TypeError.
Proof.
  induction l as [|y l IH]; simpl; [discriminate|].
  destruct (py_lt (key x) (key y)) as [[]|e'] eqn:E; simpl.
  - discriminate.
  - destruct (insert_by key x l); simpl; [discriminate|].
    intros [= <-]. by apply IH.
  - intros [= <-]. by eapply py_lt_raises.
Qed.

Lemma insert_by_kind {A} (key : A → value) x y l l' :
  insert_by key x (y :: l) = Ok l' → is_number (key x) = is_number (key y).
Proof.
  simpl. destruct (py_lt (key x) (key y)) as [t|e] eqn:E; [|discriminate].
  intros _. by eapply py_lt_kind.
Qed.

Lemma sort_fold_raises {A} (key : A → value) acc l e :
  foldl (λ acc x, s ← acc; insert_by key x s) (Ok acc) l = Raise e → e = TypeError.
Proof.
  revert acc. induction l as [|x l IH]; intros acc H; simpl in H; [discriminate|].
  destruct (insert_by key x acc) as [acc'|e'] eqn:E; simpl in H.
  - by eapply IH.
  - rewrite sort_fold_raise in H. injection H as <-. by eapply insert_by_raises.
Qed.

Lemma sort_fold_kind {A} (key : A → value) k acc l s :
  acc ≠ [] → Forall (λ y, is_number (key y) = k) acc →
  foldl (λ acc x, s ← acc; insert_by key x s) (Ok acc) l = Ok s →
  Forall (λ y, is_number (key y) = k) l.
Proof.
  revert acc. induction l as [|x l IH]; intros acc Hne Hall H; [constructor|].
  simpl in H. destruct (insert_by key x acc) as [acc'|e'] eqn:E; simpl in H;
    [|by rewrite sort_fold_raise in H].
  assert (Hx : is_number (key x) = k).
  { destruct acc as [|y acc]; [done|].
    rewrite (insert_by_kind key x y acc acc' E). by apply Forall_inv in Hall. }
  constructor; [exact Hx|].
  apply (IH acc'); [| |exact H].
  - intros ->. apply insert_by_perm in E. by apply Permutation_nil_cons in E.
  - rewrite (insert_by_perm key x acc acc' E). by constructor.
Qed.

Lemma sort_by_kind {A} (key : A → value) l s a b :
  sort_by key l = Ok s → a ∈ l → b ∈ l → is_number (key a) = is_number (key b).
Proof.
  unfold sort_by. destruct l as [|x l]; [intros _ Ha; by apply elem_of_nil in Ha|].
  simpl. intros H Ha Hb.
  assert (Hall : Forall (λ y, is_number (key y) = is_number (key x)) (x :: l)).
  { constructor; [done|].
    apply (sort_fold_kind key _ [x] l s); [done|by repeat constructor|exact H]. }
  rewrite Forall_forall in Hall. by rewrite (Hall a Ha), (Hall b Hb).
Qed.

Lemma sorted_mixed_raises {A} (key : A → value) l reverse a b :
  a ∈ l → b ∈ l → is_number (key a) = true → is_number (key b) = false →
  sorted l key reverse = Raise TypeError.
Proof.
  intros Ha Hb Hka Hkb. unfold sorted. destruct reverse.
  - destruct (sort_by key (rev l)) as [s|e] eqn:E; simpl.
    + assert (is_number (key a) = is_number (key b)) as Hk; [|congruence].
      apply (sort_by_kind key (rev l) s a b E); by rewrite list_elem_of_In, <- in_rev, <- list_elem_of_In.
    + f_equal. by eapply sort_fold_raises.
  - destruct (sort_by key l) as [s|e] eqn:E.
    + assert (is_number (key a) = is_number (key b)) as Hk; [|congruence].
      by apply (sort_by_kind key l s a b E).
    + f_equal. by eapply sort_fold_raises.
Qed.

Lemma mixed_keys_normalize rs h field dflt :
  mixed_keys (λ l, rec_get (deref h l) field dflt) rs →
  mixed_keys (λ l, rec_get (deref (normalize rs h) l) field dflt) rs.
Proof.
  intros (a & b & Ha & Hb & Hka & Hkb). exists a, b.
  split; [done|]. split; [done|].
  rewrite !deref_normalize by done. unfold rec_get in *.
  rewrite !normalize_record_lookup.
  split.
  - destruct (deref h a !! field); simpl in *; [by rewrite is_number_normalize|done].
  - destruct (deref h b !! field); simpl in *; [by rewrite is_number_normalize|done].
Qed.

Lemma py_round2_raises v e : py_round2 v = Raise e → e = TypeError.
Proof. destruct v; simpl; intros H; try discriminate H; by injection H. Qed.

(** A collection whose sort keys mix numbers and strings makes every
    aggregator raise [TypeError]: the comparison of a number with a string
    fails inside [sorted], before anything is ranked or averaged. *)
Theorem mixed_metric_types_raise d rs h :
  results d = Some rs →
  (mixed_keys (inspection_key h) rs →
   (process_state_inspection_data (Some d) h).1 = Raise TypeError ∧
   (process_district_inspection_data (Some d) h).1 = Raise TypeError) ∧
  (mixed_keys (work_key h) rs →
   (process_state_work_data (Some d) h).1 = Raise TypeError ∧
   (process_district_work_data (Some d) h).1 = Raise TypeError) ∧
  (mixed_keys (zero_muster_key h) rs →
   (process_state_zero_muster_data (Some d) h).1 = Raise TypeError ∧
   (process_district_zero_muster_data (Some d) h).1 = Raise TypeError).
Proof.
  intros Hrs. split; [|split]; intros Hm.
  - apply (mixed_keys_normalize rs h "total_visit_marks" (VInt 0)) in Hm
      as (a & b & Ha & Hb & Hka & Hkb).
    unfold process_state_inspection_data, process_district_inspection_data.
    rewrite (payload_with_results_truthy d rs Hrs), Hrs. cbn [fst].
    by rewrite (sorted_mixed_raises (inspection_key (normalize rs h)) rs true a b).
  - apply (mixed_keys_normalize rs h "work_management_total" (VInt 0)) in Hm
      as (a & b & Ha & Hb & Hka & Hkb).
    unfold process_state_work_data, process_district_work_data.
    rewrite (payload_with_results_truthy d rs Hrs), Hrs. cbn [fst].
    rewrite (sorted_mixed_raises (work_key (normalize rs h)) rs true a b) by done.
    destruct (py_round2 (rec_get (scalars d) "state_avg_prev" (VInt 0))) as [p|e] eqn:Ep;
      [|apply py_round2_raises in Ep as ->; done].
    destruct (py_round2 (rec_get (scalars d) "state_avg_curr" (VInt 0))) as [c|e] eqn:Ec;
      [|apply py_round2_raises in Ec as ->; done].
    done.
  - apply (mixed_keys_normalize rs h "zero_attendance_percentage" (VInt 100)) in Hm
      as (a & b & Ha & Hb & Hka & Hkb).
    unfold process_state_zero_muster_data, process_district_zero_muster_data.
    rewrite (payload_with_results_truthy d rs Hrs), Hrs. cbn [fst].
    by rewrite (sorted_mixed_raises (zero_muster_key (normalize rs h)) rs false a b).
Qed.

Lemma mixed_metric_types_raise_witness :
  results textual_payload = Some [0; 1]%nat ∧
  mixed_keys (inspection_key textual_heap) [0; 1]%nat ∧
  (process_state_inspection_data (Some textual_payload) textual_heap).1 = Raise TypeError ∧
  (process_district_inspection_data (Some textual_payload) textual_heap).1 = Raise TypeError.
Proof.
  split; [reflexivity|].
  assert (Hm : mixed_keys (inspection_key textual_heap) [0; 1]%nat).
  { exists 0%nat, 1%nat. split; [apply elem_of_cons; by left|].
    split; [apply elem_of_cons; right; apply elem_of_cons; by left|].
    split; vm_compute; reflexivity. }
  split; [exact Hm|].
  exact (proj1 (mixed_metric_types_raise textual_payload [0; 1]%nat textual_heap eq_refl) Hm).
Defined.

(* ===================================================================== *)
(** * Further properties: well-formed collections give a result *)
(* ===================================================================== *)

(** Rounding to 53 bits at most doubles a quotient. *)
Lemma round53_upper p q : 0 < q → 0 <= p → round53 p q <= 2 * (p / q) + 1.
Proof.
  intros Hq Hp. unfold round53.
  set (t := p / q). set (s := shift53 t).
  assert (HW : 0 < 2 ^ s) by (apply Z.pow_pos_nonneg; [lia|apply shift53_nonneg]).
  pose proof (rne_div_spec p (q * 2 ^ s) ltac:(nia)) as [_ HR].
  assert (Ht : q * t <= p < q * (t + 1)).
  { unfold t. pose proof (Z.div_mod p q ltac:(lia)). pose proof (Z.mod_pos_bound p q Hq). nia. }
  assert (HWt : 2 ^ s <= 2 * t + 1).
  { destruct (Z_lt_le_dec t (2 ^ 53)) as [Hs|Hs].
    - unfold s. rewrite (shift53_small t Hs). simpl.
      assert (0 <= t) by (apply Z.div_pos; lia). lia.
    - destruct (shift53_large t Hs) as [_ [Hl _]]. fold s in Hl.
      assert (0 < 2 ^ 52) by (apply Z.pow_pos_nonneg; lia).
      remember (2 ^ 52) as c. remember (2 ^ s) as W. nia. }
  remember (2 ^ s) as W. remember (rne_div p (q * W)) as R.
  assert (2 * (W * R) < 2 * (t + 1) + W) by nia.
  nia.
Qed.

Lemma unit_below_bound : unit <= magnitude_bound.
Proof. apply Z.leb_le. vm_compute. reflexivity. Qed.

Lemma bound_below_overflow : 8 * magnitude_bound + 1 < overflow_bound.
Proof. apply Z.ltb_lt. vm_compute. reflexivity. Qed.

Lemma float_scaled_abs f : Z.abs (float_scaled f) = Z.of_N (fmag f).
Proof. unfold float_scaled. destruct (fneg f); lia. Qed.

Lemma round2_below f :
  Z.of_N (fmag f) < magnitude_bound →
  Z.of_N (fmag (round2 f)) < 4 * magnitude_bound.
Proof.
  intros Hm. unfold round2. cbn [fmag].
  set (m := Z.of_N (fmag f)) in *.
  assert (Hm0 : 0 <= m) by (unfold m; lia).
  pose proof unit_pos as Hu. pose proof unit_below_bound as Hub.
  set (k := rne_div (100 * m) unit).
  pose proof (rne_div_spec (100 * m) unit Hu) as [_ Hk]. fold k in Hk.
  assert (Hk0 : 0 <= k) by (apply rne_div_nonneg; lia).
  pose proof (round53_upper (k * unit) 100 ltac:(lia) ltac:(nia)) as Hr.
  pose proof (round53_nonneg (k * unit) 100 ltac:(lia) ltac:(nia)) as Hr0.
  rewrite Z2N.id by exact Hr0.
  assert (Hq : k * unit / 100 <= m + unit).
  { apply Z.div_le_upper_bound; [lia|]. nia. }
  remember (round53 (k * unit) 100) as R. remember (k * unit / 100) as Q.
  remember unit as U. remember magnitude_bound as B. lia.
Qed.

Lemma normalize_value_below v :
  number_below magnitude_bound v = true →
  number_below (4 * magnitude_bound) (normalize_value v) = true.
Proof.
  pose proof unit_pos as Hu. pose proof unit_below_bound as Hub.
  destruct v as [z|f|s]; unfold number_below; cbn [normalize_value value_scaled];
    [| |done].
  - intros H. apply Z.ltb_lt in H. apply Z.ltb_lt.
    remember (Z.abs (z * unit)) as a. remember magnitude_bound as B. lia.
  - rewrite !float_scaled_abs. intros H. apply Z.ltb_lt in H. apply Z.ltb_lt.
    by apply round2_below.
Qed.

Lemma number_below_is_number B v : number_below B v = true → is_number v = true.
Proof. by destruct v. Qed.

(** The exact sum of bounded numbers exists and is bounded. *)
Lemma exact_sum_below B vs :
  Forall (λ v, number_below B v = true) vs →
  ∃ total, exact_sum vs = Ok total ∧ Z.abs total <= Z.of_nat (length vs) * B.
Proof.
  induction 1 as [|v vs Hv _ (total & E & Hb)]; [exists 0; split; [done|simpl; lia]|].
  unfold number_below in Hv. cbn [exact_sum].
  destruct (value_scaled v) as [x|]; [|done]. apply Z.ltb_lt in Hv.
  rewrite E. exists (x + total). split; [done|].
  rewrite length_cons, Nat2Z.inj_succ. lia.
Qed.

(** The mean of a non-empty sequence of bounded numbers exists and is a
    number. *)
Lemma mean_below vs :
  vs ≠ [] → Forall (λ v, number_below (4 * magnitude_bound) v = true) vs →
  ∃ m, mean vs = Ok m ∧ is_number m = true.
Proof.
  intros Hne Hall. destruct (exact_sum_below _ vs Hall) as (total & E & Hb).
  unfold mean. rewrite E. cbn [mbind result_bind].
  assert (Hn : 1 <= Z.of_nat (length vs)) by (destruct vs; [done|simpl; lia]).
  destruct (Z.ltb_spec (Z.of_nat (length vs)) 1) as [?|_]; [lia|].
  destruct (forallb is_int vs && (total mod (Z.of_nat (length vs) * unit) =? 0));
    [eauto|].
  unfold float_of_ratio.
  pose proof (round53_upper (Z.abs total) (Z.of_nat (length vs)) ltac:(lia) ltac:(lia)) as Hr.
  assert (Hq : Z.abs total / Z.of_nat (length vs) <= 4 * magnitude_bound).
  { apply Z.div_le_upper_bound; [lia|]. lia. }
  pose proof bound_below_overflow as Ho.
  destruct (Z.ltb_spec (round53 (Z.abs total) (Z.of_nat (length vs))) overflow_bound)
    as [_|Hge]; [simpl; eauto|].
  remember (round53 (Z.abs total) (Z.of_nat (length vs))) as R.
  remember (Z.abs total / Z.of_nat (length vs)) as Q.
  remember magnitude_bound as B. remember overflow_bound as O. lia.
Qed.

Lemma well_formed_field fields rs h l k f v :
  l ∈ rs → well_formed fields h l → (k, f) ∈ fields →
  deref (normalize rs h) l !! f = Some v →
  number_below (4 * magnitude_bound) v = true.
Proof.
  intros Hl [_ Hall] Hf. rewrite Forall_forall in Hall. specialize (Hall _ Hf).
  rewrite deref_normalize, normalize_record_lookup by done. cbn [snd] in Hall.
  destruct (deref h l !! f) as [w|]; [|discriminate].
  intros [= <-]. apply normalize_value_below. by apply Hall.
Qed.

Lemma zero_below : number_below (4 * magnitude_bound) (VInt 0) = true.
Proof. apply Z.ltb_lt. vm_compute. reflexivity. Qed.

Lemma average_well_formed fields rs h k f :
  rs ≠ [] → Forall (well_formed fields h) rs → (k, f) ∈ fields →
  ∃ v, average (normalize rs h) rs f = Ok v.
Proof.
  intros Hne Hall Hf. unfold average.
  destruct (mean_below (map (λ d, rec_get (deref (normalize rs h) d) f (VInt 0)) rs))
    as (m & -> & Hm).
  - by destruct rs.
  - apply Forall_map, Forall_forall. intros l Hl. cbn beta.
    rewrite Forall_forall in Hall. unfold rec_get.
    destruct (deref (normalize rs h) l !! f) as [v|] eqn:E; cbn [default].
    + eapply well_formed_field; [exact Hl|by apply Hall|exact Hf|exact E].
    + apply zero_below.
  - cbn [mbind result_bind]. destruct m; [eauto|eauto|discriminate].
Qed.

Lemma sorted_well_formed fields rs h k f dflt reverse :
  Forall (well_formed fields h) rs → (k, f) ∈ fields → is_number dflt = true →
  ∃ s, sorted rs (λ x, rec_get (deref (normalize rs h) x) f dflt) reverse = Ok s.
Proof.
  intros Hall Hf Hd. apply sorted_numeric, Forall_forall. intros l Hl.
  rewrite Forall_forall in Hall. unfold rec_get.
  destruct (deref (normalize rs h) l !! f) as [v|] eqn:E; cbn [default]; [|done].
  eapply number_below_is_number, well_formed_field;
    [exact Hl|by apply Hall|exact Hf|exact E].
Qed.

Lemma named_normalize rs h l :
  l ∈ rs → is_Some (entity_name h l) → is_Some (entity_name (normalize rs h) l).
Proof.
  intros Hl [n Hn]. unfold entity_name in *.
  rewrite deref_normalize, normalize_record_lookup, Hn by done. by eexists.
Qed.

Lemma tie_breakable_normalize rs h l :
  l ∈ rs → tie_breakable h l → tie_breakable (normalize rs h) l.
Proof.
  intros Hl [[m Hm] Hc]. split; [|by apply counts_visits_normalize].
  rewrite deref_normalize, normalize_record_lookup, Hm by done. by eexists.
Qed.

Lemma swap_test_breakable h a b :
  tie_breakable h a → tie_breakable h b → ∃ t, swap_test h a b = Ok t.
Proof.
  intros [[ma Hma] (xa & ya & Hxa & Hya)] [[mb Hmb] (xb & yb & Hxb & Hyb)].
  unfold swap_test, total_visits, rec_getitem.
  rewrite Hma, Hmb, Hxa, Hya, Hxb, Hyb. cbn [mbind result_bind py_add].
  destruct (py_eqb ma mb); eauto.
Qed.

Lemma bubble_from_breakable h rest : ∀ a,
  tie_breakable h a → Forall (tie_breakable h) rest → ∃ r, bubble_from h a rest = Ok r.
Proof.
  induction rest as [|b rest IH]; intros a Ha Hall; [simpl; eauto|].
  apply Forall_cons in Hall as [Hb Hall]. cbn [bubble_from].
  destruct (swap_test_breakable h a b Ha Hb) as ([] & ->); cbn [mbind result_bind].
  - destruct (IH a Ha Hall) as (r & ->). simpl. eauto.
  - destruct (IH b Hb Hall) as (r & ->). simpl. eauto.
Qed.

Lemma tie_break_pass_breakable h s :
  Forall (tie_breakable h) s → ∃ r, tie_break_pass h s = Ok r.
Proof.
  rewrite tie_break_pass_bubble. destruct s as [|a rest]; [simpl; eauto|].
  intros Hall. apply Forall_cons in Hall as [Ha Hall]. by apply bubble_from_breakable.
Qed.

Lemma assign_ranks_from_named h l : ∀ i acc,
  Forall (λ x, is_Some (entity_name h x)) l → ∃ r, assign_ranks_from h i l acc = Ok r.
Proof.
  induction l as [|x l IH]; intros i acc Hall; [simpl; eauto|].
  apply Forall_cons in Hall as [[n Hn] Hall]. cbn [assign_ranks_from].
  unfold rec_getitem. unfold entity_name in Hn. rewrite Hn. cbn [mbind result_bind].
  by apply IH.
Qed.

Lemma name_if_named h blk :
  (∀ b, blk = Some b → is_Some (entity_name h b)) → ∃ j, name_if h blk = Ok j.
Proof.
  intros H. destruct blk as [b|]; [|simpl; eauto].
  destruct (H b eq_refl) as [n Hn]. unfold name_if, rec_getitem.
  unfold entity_name in Hn. rewrite Hn. case_bool_decide; simpl; eauto.
Qed.

Lemma getitem_nonempty {A} (l : list A) : l ≠ [] → ∃ x, getitem l 0 = Ok x.
Proof. destruct l as [|x l]; [done|]. intros _. by exists x. Qed.

Lemma getlast_nonempty {A} (l : list A) : l ≠ [] → ∃ x, getlast l = Ok x.
Proof.
  destruct l as [|y l] using rev_ind; [done|]. intros _. exists y.
  unfold getlast. rewrite length_app. simpl.
  replace (length l + 1 - 1)%nat with (length l) by lia.
  apply getitem_middle.
Qed.

Lemma perm_nonempty {A} (l l' : list A) : l ≡ₚ l' → l' ≠ [] → l ≠ [].
Proof. intros Hp Hne ->. by apply Permutation_nil in Hp. Qed.

Ltac in_fields := apply list_elem_of_In; simpl; auto 10.

Ltac average_step Hne Hall fields key field :=
  let v := fresh "avg" in
  let E := fresh "Eavg" in
  destruct (average_well_formed fields _ _ key field Hne Hall ltac:(in_fields)) as (v & E);
  rewrite E; cbn [mbind result_bind]; clear E.

Lemma process_state_inspection_ok d rs h :
  results d = Some rs → rs ≠ [] →
  Forall (well_formed inspection_state_fields h) rs →
  Forall (tie_breakable h) rs →
  ∃ out, (process_state_inspection_data (Some d) h).1 = Ok (Some out).
Proof.
  intros Hrs Hne Hall Htie. unfold process_state_inspection_data.
  rewrite (payload_with_results_truthy d rs Hrs), Hrs. cbn [fst].
  destruct (sorted_well_formed inspection_state_fields rs h "total_marks"
              "total_visit_marks" (VInt 0) true Hall ltac:(in_fields) eq_refl) as (s & Es).
  change (sorted rs (inspection_key (normalize rs h)) true = Ok s) in Es.
  rewrite Es; cbn [mbind result_bind].
  pose proof (sorted_perm _ _ _ _ Es) as Hps.
  destruct (tie_break_pass_breakable (normalize rs h) s) as (r & Er).
  { rewrite Hps. apply Forall_forall. intros l Hl.
    apply tie_breakable_normalize; [done|]. rewrite Forall_forall in Htie. by apply Htie. }
  rewrite Er; cbn [mbind result_bind].
  pose proof (tie_break_pass_perm _ _ _ Er) as Hpr. rewrite Hps in Hpr.
  destruct (assign_ranks_from_named (normalize rs h) r 0 []) as (ranks & Eranks).
  { rewrite Hpr. apply Forall_forall. intros l Hl.
    apply named_normalize; [done|]. rewrite Forall_forall in Hall. by apply Hall. }
  unfold assign_ranks. rewrite Eranks; cbn [mbind result_bind].
  destruct (getitem_nonempty r (perm_nonempty _ _ Hpr Hne)) as (top & ->).
  destruct (getlast_nonempty r (perm_nonempty _ _ Hpr Hne)) as (bot & ->).
  cbn [mbind result_bind].
  average_step Hne Hall inspection_state_fields "dpc_ws_visited"%string "dpc_ws_visited"%string.
  average_step Hne Hall inspection_state_fields "adpc_ws_visited"%string "adpc_ws_visited"%string.
  average_step Hne Hall inspection_state_fields "dpc_marks"%string "dpc_marks"%string.
  average_step Hne Hall inspection_state_fields "adpc_marks"%string "adpc_marks"%string.
  average_step Hne Hall inspection_state_fields "total_marks"%string "total_visit_marks"%string.
  eauto.
Qed.

Lemma named_after h rs ranked :
  ranked ≡ₚ rs → Forall (λ l, is_Some (entity_name h l)) rs →
  Forall (λ l, is_Some (entity_name (normalize rs h) l)) ranked.
Proof.
  intros Hp Hall. rewrite Hp. apply Forall_forall. intros l Hl.
  apply named_normalize; [done|]. rewrite Forall_forall in Hall. by apply Hall.
Qed.

Lemma well_formed_named fields h rs :
  Forall (well_formed fields h) rs → Forall (λ l, is_Some (entity_name h l)) rs.
Proof. intros H. eapply Forall_impl; [exact H|]. by intros l [Hn _]. Qed.

Lemma name_if_ranked h ranked i :
  Forall (λ l, is_Some (entity_name h l)) ranked → ∃ j, name_if h (ranked !! i) = Ok j.
Proof.
  intros Hall. apply name_if_named. intros b Hb.
  rewrite Forall_forall in Hall. apply Hall. by eapply list_elem_of_lookup_2.
Qed.

Lemma process_district_inspection_ok d rs h :
  results d = Some rs → rs ≠ [] →
  Forall (well_formed inspection_state_fields h) rs →
  Forall (tie_breakable h) rs →
  ∃ out, (process_district_inspection_data (Some d) h).1 = Ok (Some out).
Proof.
  intros Hrs Hne Hall Htie. unfold process_district_inspection_data.
  rewrite (payload_with_results_truthy d rs Hrs), Hrs. cbn [fst].
  destruct (sorted_well_formed inspection_state_fields rs h "total_marks"
              "total_visit_marks" (VInt 0) true Hall ltac:(in_fields) eq_refl) as (s & Es).
  change (sorted rs (inspection_key (normalize rs h)) true = Ok s) in Es.
  rewrite Es; cbn [mbind result_bind].
  pose proof (sorted_perm _ _ _ _ Es) as Hps.
  destruct (tie_break_pass_breakable (normalize rs h) s) as (r & Er).
  { rewrite Hps. apply Forall_forall. intros l Hl.
    apply tie_breakable_normalize; [done|]. rewrite Forall_forall in Htie. by apply Htie. }
  rewrite Er; cbn [mbind result_bind].
  pose proof (tie_break_pass_perm _ _ _ Er) as Hpr. rewrite Hps in Hpr.
  average_step Hne Hall inspection_state_fields "dpc_ws_visited"%string "dpc_ws_visited"%string.
  average_step Hne Hall inspection_state_fields "adpc_ws_visited"%string "adpc_ws_visited"%string.
  average_step Hne Hall inspection_state_fields "dpc_marks"%string "dpc_marks"%string.
  average_step Hne Hall inspection_state_fields "adpc_marks"%string "adpc_marks"%string.
  average_step Hne Hall inspection_state_fields "total_marks"%string "total_visit_marks"%string.
  pose proof (named_after h rs r Hpr (well_formed_named _ _ _ Hall)) as Hnamed.
  unfold first_or_none, last_or_none.
  destruct (name_if_ranked _ r 0 Hnamed) as (hn & ->).
  destruct (name_if_ranked _ r (length r - 1) Hnamed) as (ln & ->).
  cbn [mbind result_bind]. eauto.
Qed.

Lemma py_round2_number v : is_number v = true → ∃ w, py_round2 v = Ok w.
Proof. destruct v; simpl; [eauto|eauto|discriminate]. Qed.

Lemma process_state_work_ok d rs h :
  results d = Some rs → rs ≠ [] →
  Forall (well_formed work_state_fields h) rs →
  passthrough_numeric d = true →
  ∃ out, (process_state_work_data (Some d) h).1 = Ok (Some out).
Proof.
  intros Hrs Hne Hall Hpass. unfold process_state_work_data.
  rewrite (payload_with_results_truthy d rs Hrs), Hrs. cbn [fst].
  apply andb_true_iff in Hpass as [Hprev Hcurr].
  destruct (py_round2_number _ Hprev) as (p & ->).
  destruct (py_round2_number _ Hcurr) as (c & ->). cbn [mbind result_bind].
  destruct (sorted_well_formed work_state_fields rs h "total_marks"
              "work_management_total" (VInt 0) true Hall ltac:(in_fields) eq_refl) as (s & Es).
  change (sorted rs (work_key (normalize rs h)) true = Ok s) in Es.
  rewrite Es; cbn [mbind result_bind].
  pose proof (sorted_perm _ _ _ _ Es) as Hps.
  destruct (assign_ranks_from_named (normalize rs h) s 0 []) as (ranks & Eranks);
    [exact (named_after h rs s Hps (well_formed_named _ _ _ Hall))|].
  unfold assign_ranks. rewrite Eranks; cbn [mbind result_bind].
  destruct (getitem_nonempty s (perm_nonempty _ _ Hps Hne)) as (top & ->).
  destruct (getlast_nonempty s (perm_nonempty _ _ Hps Hne)) as (bot & ->).
  cbn [mbind result_bind].
  average_step Hne Hall work_state_fields "prev_completion"%string "prev_completion"%string.
  average_step Hne Hall work_state_fields "curr_completion"%string "curr_completion"%string.
  average_step Hne Hall work_state_fields "marks_prev"%string "marks_prev"%string.
  average_step Hne Hall work_state_fields "marks_curr"%string "marks_curr"%string.
  average_step Hne Hall work_state_fields "total_marks"%string "work_management_total"%string.
  eauto.
Qed.

Lemma rec_getitem_named h l :
  is_Some (entity_name h l) → ∃ n, rec_getitem (deref h l) "group_name" = Ok n.
Proof. intros [n Hn]. unfold rec_getitem. unfold entity_name in Hn. rewrite Hn. eauto. Qed.

Lemma process_district_work_ok d rs h :
  results d = Some rs → rs ≠ [] →
  Forall (well_formed work_state_fields h) rs →
  passthrough_numeric d = true →
  ∃ out, (process_district_work_data (Some d) h).1 = Ok (Some out).
Proof.
  intros Hrs Hne Hall Hpass. unfold process_district_work_data.
  rewrite (payload_with_results_truthy d rs Hrs), Hrs. cbn [fst].
  apply andb_true_iff in Hpass as [Hprev Hcurr].
  destruct (py_round2_number _ Hprev) as (p & ->).
  destruct (py_round2_number _ Hcurr) as (c & ->). cbn [mbind result_bind].
  destruct (sorted_well_formed work_state_fields rs h "total_marks"
              "work_management_total" (VInt 0) true Hall ltac:(in_fields) eq_refl) as (s & Es).
  change (sorted rs (work_key (normalize rs h)) true = Ok s) in Es.
  rewrite Es; cbn [mbind result_bind].
  pose proof (sorted_perm _ _ _ _ Es) as Hps.
  average_step Hne Hall work_state_fields "prev_completion"%string "prev_completion"%string.
  average_step Hne Hall work_state_fields "curr_completion"%string "curr_completion"%string.
  average_step Hne Hall work_state_fields "marks_prev"%string "marks_prev"%string.
  average_step Hne Hall work_state_fields "marks_curr"%string "marks_curr"%string.
  average_step Hne Hall work_state_fields "total_marks"%string "work_management_total"%string.
  pose proof (named_after h rs s Hps (well_formed_named _ _ _ Hall)) as Hnamed.
  rewrite Forall_forall in Hnamed.
  destruct (getitem_nonempty s (perm_nonempty _ _ Hps Hne)) as (top & Etop).
  destruct (getlast_nonempty s (perm_nonempty _ _ Hps Hne)) as (bot & Ebot).
  rewrite Etop, Ebot. cbn [mbind result_bind].
  destruct (rec_getitem_named (normalize rs h) top) as (tn & ->);
    [apply Hnamed; by eapply getitem_elem_of|].
  destruct (rec_getitem_named (normalize rs h) bot) as (bn & ->);
    [apply Hnamed; by eapply getitem_elem_of|].
  cbn [mbind result_bind]. eauto.
Qed.

Lemma process_state_zero_muster_ok d rs h :
  results d = Some rs → rs ≠ [] →
  Forall (well_formed zero_muster_state_fields h) rs →
  ∃ out, (process_state_zero_muster_data (Some d) h).1 = Ok (Some out).
Proof.
  intros Hrs Hne Hall. unfold process_state_zero_muster_data.
  rewrite (payload_with_results_truthy d rs Hrs), Hrs. cbn [fst].
  destruct (sorted_well_formed zero_muster_state_fields rs h "zero_attendance_percentage"
              "zero_attendance_percentage" (VInt 100) false Hall ltac:(in_fields) eq_refl)
    as (s & Es).
  change (sorted rs (zero_muster_key (normalize rs h)) false = Ok s) in Es.
  rewrite Es; cbn [mbind result_bind].
  pose proof (sorted_perm _ _ _ _ Es) as Hps.
  destruct (assign_ranks_from_named (normalize rs h) s 0 []) as (ranks & Eranks);
    [exact (named_after h rs s Hps (well_formed_named _ _ _ Hall))|].
  unfold assign_ranks. rewrite Eranks; cbn [mbind result_bind].
  destruct (getitem_nonempty s (perm_nonempty _ _ Hps Hne)) as (top & ->).
  destruct (getlast_nonempty s (perm_nonempty _ _ Hps Hne)) as (bot & ->).
  cbn [mbind result_bind].
  average_step Hne Hall zero_muster_state_fields "total_muster_issued"%string "total_muster_issued"%string.
  average_step Hne Hall zero_muster_state_fields "total_zero_attendance"%string "total_zero_attendance"%string.
  average_step Hne Hall zero_muster_state_fields "zero_attendance_percentage"%string "zero_attendance_percentage"%string.
  average_step Hne Hall zero_muster_state_fields "zero_muster_marks"%string "zero_muster_marks"%string.
  eauto.
Qed.

Lemma process_district_zero_muster_ok d rs h :
  results d = Some rs → rs ≠ [] →
  Forall (well_formed zero_muster_state_fields h) rs →
  ∃ out, (process_district_zero_muster_data (Some d) h).1 = Ok (Some out).
Proof.
  intros Hrs Hne Hall. unfold process_district_zero_muster_data.
  rewrite (payload_with_results_truthy d rs Hrs), Hrs. cbn [fst].
  destruct (sorted_well_formed zero_muster_state_fields rs h "zero_attendance_percentage"
              "zero_attendance_percentage" (VInt 100) false Hall ltac:(in_fields) eq_refl)
    as (s & Es).
  change (sorted rs (zero_muster_key (normalize rs h)) false = Ok s) in Es.
  rewrite Es; cbn [mbind result_bind].
  pose proof (sorted_perm _ _ _ _ Es) as Hps.
  average_step Hne Hall zero_muster_state_fields "total_muster_issued"%string "total_muster_issued"%string.
  average_step Hne Hall zero_muster_state_fields "total_zero_attendance"%string "total_zero_attendance"%string.
  average_step Hne Hall zero_muster_state_fields "zero_attendance_percentage"%string "zero_attendance_percentage"%string.
  average_step Hne Hall zero_muster_state_fields "zero_muster_marks"%string "zero_muster_marks"%string.
  pose proof (named_after h rs s Hps (well_formed_named _ _ _ Hall)) as Hnamed.
  unfold first_or_none, last_or_none.
  destruct (name_if_ranked _ s 0 Hnamed) as (hn & ->).
  destruct (name_if_ranked _ s (length s - 1) Hnamed) as (ln & ->).
  cbn [mbind result_bind]. eauto.
Qed.

(** Every aggregator returns a result on a non-empty collection of
    well-formed records: each record is named and the fields that are
    averaged, the sort key among them, are numbers of bounded magnitude
    where present.  The inspection pipeline needs in addition what its
    tie-break pass subscripts, the work-management pipeline numeric state
    averages. *)
Theorem well_formed_collection_gives_result d rs h :
  results d = Some rs → rs ≠ [] →
  (Forall (well_formed inspection_state_fields h) rs →
   Forall (tie_breakable h) rs →
   (∃ out, (process_state_inspection_data (Some d) h).1 = Ok (Some out)) ∧
   (∃ out, (process_district_inspection_data (Some d) h).1 = Ok (Some out))) ∧
  (Forall (well_formed work_state_fields h) rs →
   passthrough_numeric d = true →
   (∃ out, (process_state_work_data (Some d) h).1 = Ok (Some out)) ∧
   (∃ out, (process_district_work_data (Some d) h).1 = Ok (Some out))) ∧
  (Forall (well_formed zero_muster_state_fields h) rs →
   (∃ out, (process_state_zero_muster_data (Some d) h).1 = Ok (Some out)) ∧
   (∃ out, (process_district_zero_muster_data (Some d) h).1 = Ok (Some out))).
Proof.
  intros Hrs Hne. split; [|split].
  - intros Hall Htie. split.
    + by apply process_state_inspection_ok with rs.
    + by apply process_district_inspection_ok with rs.
  - intros Hall Hpass. split.
    + by apply process_state_work_ok with rs.
    + by apply process_district_work_ok with rs.
  - intros Hall. split.
    + by apply process_state_zero_muster_ok with rs.
    + by apply process_district_zero_muster_ok with rs.
Qed.

Lemma well_formed_collection_gives_result_witness :
  results scenario_payload = Some [0; 1; 2]%nat ∧
  Forall (well_formed inspection_state_fields scenario_heap) [0; 1; 2]%nat ∧
  Forall (tie_breakable scenario_heap) [0; 1; 2]%nat ∧
  (∃ out, (process_state_inspection_data (Some scenario_payload) scenario_heap).1
          = Ok (Some out)) ∧
  (∃ out, (process_district_inspection_data (Some scenario_payload) scenario_heap).1
          = Ok (Some out)).
Proof.
  split; [reflexivity|].
  assert (Hall : Forall (well_formed inspection_state_fields scenario_heap) [0; 1; 2]%nat).
  { repeat (apply Forall_cons; split; [|]); [| | |apply Forall_nil_2];
      (split; [eexists; vm_compute; reflexivity|]);
      repeat (apply Forall_cons; split;
              [intros v Hv; vm_compute in Hv;
               first [discriminate Hv|injection Hv as <-; vm_compute; reflexivity]|]);
      apply Forall_nil_2. }
  assert (Htie : Forall (tie_breakable scenario_heap) [0; 1; 2]%nat).
  { repeat (apply Forall_cons; split; [|]); [| | |apply Forall_nil_2];
      (split; [eexists; vm_compute; reflexivity|]);
      eexists _, _; split; vm_compute; reflexivity. }
  split; [exact Hall|]. split; [exact Htie|].
  apply (well_formed_collection_gives_result scenario_payload [0; 1; 2]%nat scenario_heap
           eq_refl ltac:(discriminate)); [exact Hall|exact Htie].
Defined.
